(** * Bank statement analyzer: the [BankAnalyzer] class of
      [src/bank-statement-analyzer.tsx] and the assembly of its three
      analyses in [processFile].

    Modelling choices, all local to this file:
    - a JavaScript number is a binary64 value: a finite one is held as the
      rational it denotes ([Q]), next to the two infinities and [NaN]; the
      sum and the quotient of two numbers are rounded to the nearest
      binary64 value, as [+] and [/] do; the sign of a zero is not
      modelled; amounts are only compared with each other, and a sample
      amount written as a decimal fraction stands for the binary64 value
      nearest to it;
    - a [Date] is its time value, milliseconds since the epoch ([Z]); the
      data model only admits valid dates; [toISOString] works in UTC and
      [getHours] in the local time of the host, whose offset from UTC is a
      parameter [LocalTZA];
    - a plain object is the list of its own properties in the order in which
      JavaScript enumerates them (array-index keys ascending, then the other
      keys in creation order); an array is a list;
    - a method of the class is a state-passing function over the analyzer
      object. *)

From Stdlib Require Import Ascii String.
From Stdlib Require Import List ZArith QArith Qreduction Bool.
From Stdlib Require Import Lia Lqa Permutation.
From Stdlib Require Import Sorted Qabs.
Import ListNotations.

Local Open Scope Z_scope.

(** ** JavaScript values used by the analyses *)

Module JS.

Inductive number : Type :=
| Finite (q : Q)
| Infinity
| NegInfinity
| NaN.

Inductive value : Type :=
| undefined
| Num (n : number).

Definition ToNumber (v : value) : number :=
  match v with
  | undefined => NaN
  | Num n => n
  end.

(** [x > y] on finite rationals. *)
Definition Qgtb (x y : Q) : bool := negb (Qle_bool x y).

(** The relational operator [a > b]; any comparison with [NaN] is false. *)
Definition gt (a b : value) : bool :=
  match ToNumber a, ToNumber b with
  | Finite x, Finite y => Qgtb x y
  | Infinity, Finite _ => true
  | Infinity, NegInfinity => true
  | Finite _, NegInfinity => true
  | _, _ => false
  end.

(** [n / d] for two array lengths, kept as a fraction. The program only
    compares this quotient with 0.7, and for two lengths below 2^32 the
    comparison of the fractions [n / d > 7 / 10] decides as that of the
    rounded quotient with the rounded 0.7 does (lemma
    [div_length_rounded] below). *)
Definition div_length (n d : nat) : number :=
  match d, n with
  | O, O => NaN
  | O, S _ => Infinity
  | S _, _ => Finite (inject_Z (Z.of_nat n) / inject_Z (Z.of_nat d))
  end.

(** *** Rounding to binary64

    53 significant bits, the unit in the last place never below 2^-1074,
    ties to the even significand, an infinity from 2^1024 on. *)

(** [(n / d) / 2^e] as a fraction of two integers. *)
Definition scale (n d e : Z) : Z * Z :=
  if 0 <=? e then (n, d * 2 ^ e) else (n * 2 ^ (- e), d).

(** The [k] with [2^k <= n / d < 2^(k+1)], for positive [n] and [d]. *)
Definition ilog2 (n d : Z) : Z :=
  let k := Z.log2 n - Z.log2 d in
  let '(N, D) := scale n d k in
  if D <=? N then k else k - 1.

(** The integer nearest to [N / D], the even one of two equally near. *)
Definition nearestEven (N D : Z) : Z :=
  let q := N / D in
  match 2 * (N mod D) ?= D with
  | Lt => q
  | Gt => q + 1
  | Eq => if Z.even q then q else q + 1
  end.

(** The binary64 value nearest to a positive [n / d]; [None] beyond the
    largest one. *)
Definition roundPositive (n d : Z) : option Q :=
  let e := Z.max (ilog2 n d - 52) (- 1074) in
  let '(N, D) := scale n d e in
  let m := nearestEven N D in
  if 0 <=? e
  then if 2 ^ 1024 <=? m * 2 ^ e then None else Some (inject_Z (m * 2 ^ e))
  else Some (Qred (m # Z.to_pos (2 ^ (- e)))).

Definition round64 (q : Q) : number :=
  match Qnum q with
  | Z0 => Finite 0
  | Zpos n =>
      match roundPositive (Zpos n) (Zpos (Qden q)) with
      | Some r => Finite r
      | None => Infinity
      end
  | Zneg n =>
      match roundPositive (Zpos n) (Zpos (Qden q)) with
      | Some r => Finite (- r)
      | None => NegInfinity
      end
  end.

(** [a + b] on numbers. *)
Definition add (a b : number) : number :=
  match a, b with
  | NaN, _ | _, NaN => NaN
  | Infinity, NegInfinity | NegInfinity, Infinity => NaN
  | Infinity, _ | _, Infinity => Infinity
  | NegInfinity, _ | _, NegInfinity => NegInfinity
  | Finite x, Finite y => round64 (x + y)
  end.

(** [a / b] on numbers; a zero divisor is taken as [+0] (the program
    divides by array lengths only). *)
Definition div (a b : number) : number :=
  match a, b with
  | NaN, _ | _, NaN => NaN
  | Finite x, Finite y =>
      if Qeq_bool y 0
      then if Qeq_bool x 0 then NaN
           else if Qle_bool 0 x then Infinity else NegInfinity
      else round64 (x / y)
  | Finite _, _ => Finite 0
  | Infinity, Finite y => if Qle_bool 0 y then Infinity else NegInfinity
  | NegInfinity, Finite y => if Qle_bool 0 y then NegInfinity else Infinity
  | _, _ => NaN
  end.

(** *** Plain objects as ordered property lists *)

Section Object.
Context {K V : Type}.
Variable K_dec : forall x y : K, {x = y} + {x <> y}.
(** [arrayIndex k] is [Some i] when the property key [k] is the canonical
    string of an array index [i]. *)
Variable arrayIndex : K -> option N.

Definition object : Type := list (K * V).

Fixpoint get (o : object) (k : K) : option V :=
  match o with
  | [] => None
  | (k', v) :: o' => if K_dec k k' then Some v else get o' k
  end.

(** Assignment to an existing property keeps its place. *)
Fixpoint update (o : object) (k : K) (f : V -> V) : object :=
  match o with
  | [] => []
  | (k', v) :: o' =>
      if K_dec k k' then (k', f v) :: o' else (k', v) :: update o' k f
  end.

(** Creation of a property: an array index goes to its numeric place
    among the leading array indices, any other key goes last. *)
Fixpoint define (o : object) (k : K) (v : V) : object :=
  match o with
  | [] => [(k, v)]
  | (k', v') :: o' =>
      match arrayIndex k, arrayIndex k' with
      | Some i, Some i' =>
          if (i <? i')%N then (k, v) :: o else (k', v') :: define o' k v
      | Some _, None => (k, v) :: o
      | None, _ => (k', v') :: define o' k v
      end
  end.

Definition keys (o : object) : list K := map fst o.
Definition values (o : object) : list V := map snd o.
End Object.

(** *** Arrays seen as objects: [Object.keys] and property lookup *)

Section Array.
Context {A : Type}.

(** [Object.keys(arr)]: the indices [0 .. length-1] (as integers). *)
Definition Object_keys (arr : list A) : list Z :=
  map Z.of_nat (seq 0 (length arr)).

(** [arr[k]] for a numeric property name [k]: defined only when [k] is an
    index below the length. *)
Definition prop (arr : list A) (k : Q) : option A :=
  let r := Qred k in
  if (Pos.eqb (Qden r) 1 && (0 <=? Qnum r))%bool
  then nth_error arr (Z.to_nat (Qnum r))
  else None.
End Array.

End JS.

(** ** The lodash functions the class calls *)

Module Lodash.

Section Aggregator.
Context {A K : Type}.
Variable K_dec : forall x y : K, {x = y} + {x <> y}.
Variable arrayIndex : K -> option N.

(** The setter of [_.groupBy]: push onto the group of [key] when the
    result already has it, otherwise create the group. *)
Definition groupBy_setter (result : @JS.object K (list A)) (value : A) (key : K)
  : JS.object :=
  match JS.get K_dec result key with
  | Some _ => JS.update K_dec result key (fun group => group ++ [value])
  | None => JS.define arrayIndex result key [value]
  end.

Definition groupBy (iteratee : A -> K) (collection : list A)
  : @JS.object K (list A) :=
  fold_left (fun acc value => groupBy_setter acc value (iteratee value))
            collection [].
End Aggregator.

(** [_.filter] of an object: the values that satisfy the predicate, in
    enumeration order, as an array (the keys are dropped). *)
Definition filter {K V : Type} (predicate : V -> bool) (collection : @JS.object K V)
  : list V :=
  List.filter predicate (JS.values collection).

(** [baseSum]: [undefined] for an empty array; otherwise the first element,
    to which the others are added one after the other with [+], from the
    second to the last. *)
Definition baseSum (array : list Q) : option JS.number :=
  fold_left (fun result current =>
               match result with
               | None => Some (JS.Finite current)
               | Some r => Some (JS.add r (JS.Finite current))
               end) array None.

(** [_.mean]: [NaN] for an empty array, otherwise [baseSum(array) / length]
    (an undefined sum would give [NaN]). *)
Definition mean (array : list Q) : JS.number :=
  match length array with
  | O => JS.NaN
  | S _ as n =>
      match baseSum array with
      | None => JS.NaN
      | Some sum => JS.div sum (JS.Finite (inject_Z (Z.of_nat n)))
      end
  end.

(** [baseExtremum] with [baseGt]: the first greatest element. *)
Definition baseExtremum (array : list Q) : option Q :=
  fold_left (fun computed current =>
               match computed with
               | None => Some current
               | Some c => if JS.Qgtb current c then Some current else Some c
               end) array None.

(** [_.max]: [undefined] for an empty array. *)
Definition max (array : list Q) : JS.value :=
  match length array with
  | O => JS.undefined
  | S _ =>
      match baseExtremum array with
      | None => JS.undefined
      | Some m => JS.Num (JS.Finite m)
      end
  end.

End Lodash.

(** ** The part of [Date] the fraud screen uses *)

Module Date.

Definition msPerDay : Z := 86400000.
Definition msPerHour : Z := 3600000.
Definition msPerMinute : Z := 60000.
Definition msPerSecond : Z := 1000.

Definition Day (t : Z) : Z := t / msPerDay.
Definition HourFromTime (t : Z) : Z := (t / msPerHour) mod 24.
Definition MinFromTime (t : Z) : Z := (t / msPerMinute) mod 60.
Definition SecFromTime (t : Z) : Z := (t / msPerSecond) mod 60.
Definition msFromTime (t : Z) : Z := t mod msPerSecond.

(** Year, month (1..12) and day of the month (1..31) of a day number in
    the proleptic Gregorian calendar, day 0 being 1970-01-01. *)
Definition civil (day : Z) : Z * Z * Z :=
  let z := day + 719468 in
  let era := z / 146097 in
  let doe := z - era * 146097 in
  let yoe := (doe - doe / 1460 + doe / 36524 - doe / 146096) / 365 in
  let doy := doe - (365 * yoe + yoe / 4 - yoe / 100) in
  let mp := (5 * doy + 2) / 153 in
  let d := doy - (153 * mp + 2) / 5 + 1 in
  let m := if mp <? 10 then mp + 3 else mp - 9 in
  let y := yoe + era * 400 + (if m <=? 2 then 1 else 0) in
  (y, m, d).

Definition digitChar (n : Z) : ascii :=
  ascii_of_nat (48 + Z.to_nat (n mod 10)).

Definition digit (n : Z) : string := String (digitChar n) EmptyString.

Definition pad2 (n : Z) : string := (digit (n / 10) ++ digit n)%string.
Definition pad3 (n : Z) : string := (digit (n / 100) ++ pad2 n)%string.
Definition pad4 (n : Z) : string := (pad2 (n / 100) ++ pad2 n)%string.
Definition pad6 (n : Z) : string := (pad2 (n / 10000) ++ pad4 n)%string.

(** Years 0 to 9999 print with four digits, the others with a sign and
    six digits. *)
Definition isoYear (y : Z) : string :=
  if ((0 <=? y) && (y <=? 9999))%bool then pad4 y
  else if y <? 0 then ("-" ++ pad6 (- y))%string
       else ("+" ++ pad6 y)%string.

(** [toISOString()] of a valid date: always in UTC. *)
Definition toISOString (t : Z) : string :=
  let '(y, m, d) := civil (Day t) in
  (isoYear y ++ "-" ++ pad2 m ++ "-" ++ pad2 d ++ "T"
     ++ pad2 (HourFromTime t) ++ ":" ++ pad2 (MinFromTime t) ++ ":"
     ++ pad2 (SecFromTime t) ++ "." ++ pad3 (msFromTime t) ++ "Z")%string.

(** [s.slice(0, n)]. *)
Definition slice0 (n : nat) (s : string) : string := substring 0 n s.

(** [getHours()]: the hour of the local time, [LocalTZA t] being the
    offset of the host's time zone at instant [t], in milliseconds. *)
Definition getHours (LocalTZA : Z -> Z) (t : Z) : Z :=
  HourFromTime (t + LocalTZA t).

End Date.

(** ** Property keys *)

Module Key.

Definition is_digit (c : ascii) : bool :=
  let n := nat_of_ascii c in ((48 <=? n) && (n <=? 57))%nat%bool.

Fixpoint decimal (s : string) (acc : N) : option N :=
  match s with
  | EmptyString => Some acc
  | String c s' =>
      if is_digit c
      then decimal s' (10 * acc + N.of_nat (nat_of_ascii c - 48))%N
      else None
  end.

(** A string key is an array index when it is the canonical decimal form
    of an integer between 0 and 2^32 - 2. *)
Definition arrayIndex_of_string (s : string) : option N :=
  match s with
  | EmptyString => None
  | String c s' =>
      if (Ascii.eqb c "0" && negb (String.eqb s' ""))%bool then None
      else match decimal s 0 with
           | Some n => if (n <=? 4294967294)%N then Some n else None
           | None => None
           end
  end.

(** The key of a number is its canonical form: here the reduced fraction,
    which is an array index when it is an integer between 0 and 2^32 - 2. *)
Definition of_number (q : Q) : Q := Qred q.

Definition arrayIndex_of_number (k : Q) : option N :=
  if (Pos.eqb (Qden k) 1 && (0 <=? Qnum k) && (Qnum k <=? 4294967294))%bool
  then Some (Z.to_N (Qnum k))
  else None.

Definition Q_dec (x y : Q) : {x = y} + {x <> y}.
Proof. decide equality; [apply Pos.eq_dec | apply Z.eq_dec]. Defined.

End Key.

(** ** Data model *)

Record Transaction : Type := {
  date : Z;          (* time value of the Date, ms since the epoch *)
  amount : Q;
  type : string;
  channel : string;
  balance : Q
}.

Record TimeRange : Type := { start : Z; end_ : Z }.

Record FraudThresholds : Type := {
  velocityLimit : Z;
  largeTransactionThreshold : Z;
  suspiciousTimeRange : TimeRange
}.

Record BankAnalyzer : Type := {
  transactions : list Transaction;
  fraudThresholds : FraudThresholds
}.

Record Patterns : Type := {
  regularIncome : list (list Transaction);
  recurringExpenses : list (list Transaction)
}.

Record FraudIndicators : Type := {
  highVelocity : list (list Transaction);
  unusualTiming : list Transaction
}.

Module CrossSell.
Record t : Type := { product : string; confidence : Q; reasoning : string }.
End CrossSell.

Module UpSell.
Record t : Type := { product : string; eligibility : Q; justification : string }.
End UpSell.

Record Opportunities : Type := {
  crossSell : list CrossSell.t;
  upSell : list UpSell.t
}.

Record AnalysisResult : Type := {
  patterns : Patterns;
  fraudIndicators : FraudIndicators;
  opportunities : Opportunities
}.

(** ** The class [BankAnalyzer]

    Each method takes the analyzer object and returns its result together
    with the object as the method leaves it. *)

Definition constructor (transactions : list Transaction) : BankAnalyzer :=
  {| transactions := transactions;
     fraudThresholds :=
       {| velocityLimit := 5;
          largeTransactionThreshold := 500000;
          suspiciousTimeRange := {| start := 23; end_ := 4 |} |} |}.

(** [t => t.amount] used as a property key. *)
Definition amountKey (t : Transaction) : Q := Key.of_number (amount t).

(** [_.chain(xs).groupBy(t => t.amount)]. *)
Definition groupByAmount (xs : list Transaction) : @JS.object Q (list Transaction) :=
  Lodash.groupBy Key.Q_dec Key.arrayIndex_of_number amountKey xs.

Definition analyzeTransactionPatterns (this : BankAnalyzer)
  : Patterns * BankAnalyzer :=
  let credits := List.filter (fun t => String.eqb (type t) "Credit") (transactions this) in
  let debits := List.filter (fun t => String.eqb (type t) "Debit") (transactions this) in
  ({| regularIncome :=
        Lodash.filter (fun group => 3 <=? Z.of_nat (length group))
                      (groupByAmount credits);
      recurringExpenses :=
        Lodash.filter (fun group => 2 <=? Z.of_nat (length group))
                      (groupByAmount debits) |},
   this).

(** [t => new Date(t.date).toISOString().slice(0, 13)]. *)
Definition hourBucket (t : Transaction) : string :=
  Date.slice0 13 (Date.toISOString (date t)).

(** [_.chain(xs).groupBy(t => new Date(t.date).toISOString().slice(0, 13))]. *)
Definition groupByHour (xs : list Transaction) : @JS.object string (list Transaction) :=
  Lodash.groupBy string_dec Key.arrayIndex_of_string hourBucket xs.

Definition digitalChannels : list string :=
  ["Net Banking Transfer"; "UPI"; "Card"]%string.

(** [digitalChannels.includes(c)]. *)
Definition includes (xs : list string) (c : string) : bool :=
  existsb (fun x => String.eqb x c) xs.

Definition premiumCreditCard : CrossSell.t :=
  {| CrossSell.product := "Premium Credit Card";
     CrossSell.confidence := 8 # 10;
     CrossSell.reasoning :=
       "High digital transaction usage indicates comfort with cards" |}.

Definition mutualFundInvestment : CrossSell.t :=
  {| CrossSell.product := "Mutual Fund Investment";
     CrossSell.confidence := 75 # 100;
     CrossSell.reasoning := "Maintains healthy average balance" |}.

Definition premiumBankingAccount : UpSell.t :=
  {| UpSell.product := "Premium Banking Account";
     UpSell.eligibility := 9 # 10;
     UpSell.justification :=
       "High value transactions and balance maintenance" |}.

Definition push_crossSell (o : Opportunities) (r : CrossSell.t) : Opportunities :=
  {| crossSell := crossSell o ++ [r]; upSell := upSell o |}.

Definition push_upSell (o : Opportunities) (r : UpSell.t) : Opportunities :=
  {| crossSell := crossSell o; upSell := upSell o ++ [r] |}.

(** The three quantities [analyzeBusinessOpportunities] computes. *)
Definition averageBalance (this : BankAnalyzer) : JS.number :=
  Lodash.mean (map balance (transactions this)).

Definition maxBalance (this : BankAnalyzer) : JS.value :=
  Lodash.max (map balance (transactions this)).

Definition digitalTransactions (this : BankAnalyzer) : JS.number :=
  JS.div_length
    (length (List.filter (fun t => includes digitalChannels (channel t))
                         (transactions this)))
    (length (transactions this)).

Definition number_literal (z : Z) : JS.value := JS.Num (JS.Finite (inject_Z z)).

Definition analyzeBusinessOpportunities (this : BankAnalyzer)
  : Opportunities * BankAnalyzer :=
  let opportunities := {| crossSell := []; upSell := [] |} in
  let opportunities :=
    if JS.gt (JS.Num (digitalTransactions this)) (JS.Num (JS.Finite (7 # 10)))
    then push_crossSell opportunities premiumCreditCard
    else opportunities in
  let opportunities :=
    if JS.gt (JS.Num (averageBalance this)) (number_literal 100000)
    then push_crossSell opportunities mutualFundInvestment
    else opportunities in
  let opportunities :=
    if JS.gt (maxBalance this) (number_literal 500000)
    then push_upSell opportunities premiumBankingAccount
    else opportunities in
  (opportunities, this).

Section Host.

(** Offset of the host's local time zone at a given instant, in ms. *)
Variable LocalTZA : Z -> Z.

(** The predicate of the [unusualTiming] filter. *)
Definition isUnusualTime (this : BankAnalyzer) (t : Transaction) : bool :=
  let hour := Date.getHours LocalTZA (date t) in
  ((start (suspiciousTimeRange (fraudThresholds this)) <=? hour)
   || (hour <=? end_ (suspiciousTimeRange (fraudThresholds this))))%bool.

Definition detectFraudIndicators (this : BankAnalyzer)
  : FraudIndicators * BankAnalyzer :=
  let highVelocity :=
    Lodash.filter
      (fun group => velocityLimit (fraudThresholds this) <? Z.of_nat (length group))
      (groupByHour (transactions this)) in
  let unusualTiming := List.filter (isUnusualTime this) (transactions this) in
  ({| highVelocity := highVelocity; unusualTiming := unusualTiming |}, this).

(** The analysis step of [processFile]: one analyzer, the three methods
    called in turn, one result object. The last component is the analyzer
    after the three calls. *)
Definition analyze (txs : list Transaction) : AnalysisResult * BankAnalyzer :=
  let analyzer := constructor txs in
  let '(p, analyzer) := analyzeTransactionPatterns analyzer in
  let '(f, analyzer) := detectFraudIndicators analyzer in
  let '(o, analyzer) := analyzeBusinessOpportunities analyzer in
  ({| patterns := p; fraudIndicators := f; opportunities := o |}, analyzer).

Definition results (txs : list Transaction) : AnalysisResult :=
  fst (analyze txs).

End Host.

(** ** Vocabulary of the statements *)

Section Buckets.
Context {A K : Type}.
Variable K_dec : forall x y : K, {x = y} + {x <> y}.
Variable iteratee : A -> K.

(** The elements of [l] whose key is [k], in the order of [l]. *)
Definition bucket (k : K) (l : list A) : list A :=
  List.filter (fun v => if K_dec (iteratee v) k then true else false) l.

(** What a grouped object holds after the elements of [l] were added. *)
Definition grouped (o : @JS.object K (list A)) (l : list A) : Prop :=
  NoDup (JS.keys o) /\
  forall k g, In (k, g) o <-> g = bucket k l /\ g <> [].
End Buckets.

(** Two arrays of groups that hold the same groups up to the order of the
    groups and the order of the members of each group. *)
Definition same_groups {A : Type} (gs gs' : list (list A)) : Prop :=
  exists hs, Permutation gs hs /\ Forall2 (@Permutation A) hs gs'.

(** The sum of a list of numbers, from the right. *)
Definition Qsum (l : list Q) : Q := fold_right Qplus 0%Q l.

(** [m] is a greatest element of [l]. *)
Definition is_max (m : Q) (l : list Q) : Prop :=
  In m l /\ forall x, In x l -> (x <= m)%Q.

(** The transactions of [txs] that fall in the hour bucket [k], in the order
    of [txs]. *)
Definition hourBucketMembers (k : string) (txs : list Transaction)
  : list Transaction :=
  bucket string_dec hourBucket k txs.

(** The transactions of [txs] whose amount has key [k], in the order of
    [txs]. *)
Definition amountMembers (k : Q) (txs : list Transaction) : list Transaction :=
  bucket Key.Q_dec amountKey k txs.

Definition credits (txs : list Transaction) : list Transaction :=
  List.filter (fun t => String.eqb (type t) "Credit") txs.

Definition debits (txs : list Transaction) : list Transaction :=
  List.filter (fun t => String.eqb (type t) "Debit") txs.

(** ** The opportunity rules, in the words of the rule table *)

(** The number of transactions whose channel is in the digital set. *)
Definition digitalCount (txs : list Transaction) : nat :=
  length (List.filter
            (fun t => if in_dec string_dec (channel t) digitalChannels
                      then true else false) txs).

(** Digital affinity: digital count / total count > 0.7. *)
Definition DigitalAffinity (txs : list Transaction) : Prop :=
  txs <> [] /\
  (7 # 10 < inject_Z (Z.of_nat (digitalCount txs))
            / inject_Z (Z.of_nat (length txs)))%Q.

(** Balance health: mean of the balances > 100,000. *)
Definition BalanceHealth (txs : list Transaction) : Prop :=
  txs <> [] /\
  (inject_Z 100000 < Qsum (map balance txs)
                     / inject_Z (Z.of_nat (length txs)))%Q.

(** Peak balance: max of the balances > 500,000. *)
Definition PeakBalance (txs : list Transaction) : Prop :=
  exists m, is_max m (map balance txs) /\ (inject_Z 500000 < m)%Q.

(** [x > y] for a number [x] and a rational [y]. *)
Definition exceeds (x : JS.number) (y : Q) : Prop :=
  match x with
  | JS.Finite m => (y < m)%Q
  | JS.Infinity => True
  | JS.NegInfinity | JS.NaN => False
  end.

(** The numbers of [l] added to [acc] one after the other, from the first
    to the last, each sum rounded to a binary64 value before the next
    number is added. *)
Fixpoint sumFrom (acc : JS.number) (l : list Q) : JS.number :=
  match l with
  | [] => acc
  | x :: l' => sumFrom (JS.add acc (JS.Finite x)) l'
  end.

(** The mean in binary64 arithmetic: the sum, rounded at every addition
    from the first number to the last, divided by the count and rounded
    once more. *)
Definition roundedMean (l : list Q) : JS.number :=
  match l with
  | [] => JS.NaN
  | x :: l' =>
      JS.div (sumFrom (JS.Finite x) l')
             (JS.Finite (inject_Z (Z.of_nat (length l))))
  end.

(** [2^e <= n / d] and [n / d < 2^e], for a positive [d] and any integer
    [e], without fractions. *)
Definition pow2_le_frac (e n d : Z) : Prop :=
  d * 2 ^ Z.max e 0 <= n * 2 ^ Z.max (- e) 0.

Definition frac_lt_pow2 (n d e : Z) : Prop :=
  n * 2 ^ Z.max (- e) 0 < d * 2 ^ Z.max e 0.

(** The sum of whole numbers, and of their absolute values. *)
Definition Zsum (zs : list Z) : Z := fold_right Z.add 0 zs.

Definition sumAbs (zs : list Z) : Z :=
  fold_right (fun z s => Z.abs z + s) 0 zs.

(** The balances of [txs] are the whole numbers [zs], whose absolute
    values add up to at most 2^53: every sum of some of them is a binary64
    value. *)
Definition wholeBalances (zs : list Z) (txs : list Transaction) : Prop :=
  map balance txs = map inject_Z zs /\ sumAbs zs <= 2 ^ 53.

(** Balance health in binary64 arithmetic: the rounded mean of the
    balances, taken in the order of the list, > 100,000. *)
Definition RoundedBalanceHealth (txs : list Transaction) : Prop :=
  exceeds (roundedMean (map balance txs)) (inject_Z 100000).

(** [Subseq l l']: [l] is [l'] with some elements left out, the others in
    their order. *)
Inductive Subseq {A : Type} : list A -> list A -> Prop :=
| Subseq_nil : Subseq [] []
| Subseq_skip x l l' : Subseq l l' -> Subseq l (x :: l')
| Subseq_keep x l l' : Subseq l l' -> Subseq (x :: l) (x :: l').

(** ** The clock hour behind a bucket key *)

(** The number of whole hours between the epoch and an instant. *)
Definition hourIndex (t : Z) : Z := t / Date.msPerHour.

(** The transactions of [txs] made in the UTC clock hour number [h], in the
    order of [txs]: the hour bucket of the timestamps that truncate to that
    hour. *)
Definition clockHour (h : Z) (txs : list Transaction) : list Transaction :=
  List.filter (fun t => hourIndex (date t) =? h) txs.

(** The UTC year of an instant prints with four digits. *)
Definition fourDigitYear (t : Z) : Prop :=
  0 <= fst (fst (Date.civil (Date.Day t))) <= 9999.

(** The first 13 characters of the ISO text, from the UTC year, month, day
    and hour. *)
Definition bucketText (y m d h : Z) : string :=
  Date.slice0 13
    (Date.isoYear y ++ "-" ++ Date.pad2 m ++ "-" ++ Date.pad2 d ++ "T"
       ++ Date.pad2 h)%string.

(** The calendar inside one 400-year era: year of the era (from March),
    month and day of the day [doe] of the era, and back. *)
Definition civil_doe (doe : Z) : Z * Z * Z :=
  let yoe := (doe - doe / 1460 + doe / 36524 - doe / 146096) / 365 in
  let doy := doe - (365 * yoe + yoe / 4 - yoe / 100) in
  let mp := (5 * doy + 2) / 153 in
  let d := doy - (153 * mp + 2) / 5 + 1 in
  let m := if mp <? 10 then mp + 3 else mp - 9 in
  (yoe, m, d).

Definition doe_of (yoe m d : Z) : Z :=
  let mp := if 2 <? m then m - 3 else m + 9 in
  yoe * 365 + yoe / 4 - yoe / 100 + ((153 * mp + 2) / 5 + d - 1).

Definition doe_ok (doe : Z) : bool :=
  let '(yoe, m, d) := civil_doe doe in
  ((0 <=? yoe) && (yoe <=? 399) && (1 <=? m) && (m <=? 12)
   && (1 <=? d) && (d <=? 31) && (doe_of yoe m d =? doe))%bool.

(** [p] holds at [i], [i + 1], ..., [i + n - 1]. *)
Fixpoint all_from (n : nat) (i : Z) (p : Z -> bool) : bool :=
  match n with
  | O => true
  | S n' => (p i && all_from n' (i + 1) p)%bool
  end.

(** ** Sample inputs *)

Definition utc : Z -> Z := fun _ => 0.

(** Eight transactions two minutes apart, 09:52 to 10:06 UTC on
    2024-01-15: four before the hour boundary and four from it on. *)
Definition burst : list Transaction :=
  map (fun i => {| date := 1705312320000 + i * 120000;
                   amount := 250 # 1;
                   type := "Debit";
                   channel := "UPI";
                   balance := 90000 # 1 |})
      [0; 1; 2; 3; 4; 5; 6; 7].

(** Six transactions in one clock hour are reported together; a seventh,
    one hour later, is not in their group. *)
Definition sixInOneHour : list Transaction :=
  map (fun i => {| date := 1705312800000 + i * 60000; amount := 10 # 1;
                   type := "Debit"; channel := "UPI"; balance := 500 # 1 |})
      [0; 1; 2; 3; 4; 5; 60].

(** A reversal entry at 23:30 UTC with a high balance, after one credit. *)
Definition reversal : Transaction :=
  {| date := 1704929400000; amount := 999 # 1; type := "Reversal";
     channel := "UPI"; balance := 700000 # 1 |}.

Definition branchCredit : Transaction :=
  {| date := 1704448800000; amount := 999 # 1; type := "Credit";
     channel := "Branch"; balance := 1000 # 1 |}.

(** Three credits of 50000 on three dates and a debit of 1200 twice. *)
Definition salary (d : Z) : Transaction :=
  {| date := d; amount := 50000 # 1; type := "Credit";
     channel := "Net Banking Transfer"; balance := 120000 # 1 |}.

Definition subscription : Transaction :=
  {| date := 1704929400000; amount := 1200 # 1; type := "Debit";
     channel := "Card"; balance := 68800 # 1 |}.

Definition scenario : list Transaction :=
  [salary 1704448800000; salary 1707127200000; salary 1709632800000;
   subscription; subscription].

(** Two credits of 1500.50 and of 249.99, three each; the first of each is
    made at night (23:30 and 02:15 UTC). *)
Definition interest (d : Z) : Transaction :=
  {| date := d; amount := 3001 # 2; type := "Credit";
     channel := "Net Banking Transfer"; balance := 40000 # 1 |}.

Definition dividend (d : Z) : Transaction :=
  {| date := d; amount := 24999 # 100; type := "Credit";
     channel := "Net Banking Transfer"; balance := 40000 # 1 |}.

Definition ledger : list Transaction :=
  [interest 1704929400000; interest 1707127200000; interest 1709632800000]
  ++ [dividend 1704939300000; dividend 1707127200000; dividend 1709632800000].

Definition ledger' : list Transaction :=
  [dividend 1704939300000; dividend 1707127200000; dividend 1709632800000]
  ++ [interest 1704929400000; interest 1707127200000; interest 1709632800000].

(** The scenario of the rule table: five transactions, four of them on
    digital channels, balances with mean 150,000 and greatest value
    600,000. *)
Definition affluent : list Transaction :=
  map (fun '(c, b) => {| date := 1704448800000; amount := 100 # 1;
                         type := "Debit"; channel := c; balance := b # 1 |})
      [("UPI", 600000); ("Card", 50000); ("Net Banking Transfer", 40000);
       ("UPI", 30000); ("Cheque", 30000)]%string.



(** A statement with the given balances, in this order. *)
Definition statement (balances : list Q) : list Transaction :=
  map (fun b => {| date := 1704448800000; amount := 100 # 1; type := "Debit";
                   channel := "Cheque"; balance := b |}) balances.

(** The binary64 values of 100321.96, 99086.06, 100158.78 and 100433.20:
    their sum is 400,000 exactly. *)
Definition b100321_96 : Q := 6894072596329923 # 68719476736.
Definition b99086_06 : Q := 1702285548757975 # 17179869184.
Definition b100158_78 : Q := 3441429476058071 # 34359738368.
Definition b100433_20 : Q := 6901716950922035 # 68719476736.

Definition fourBalances : list Q :=
  [b100321_96; b99086_06; b100158_78; b100433_20].

(** The same four, the last two exchanged. *)
Definition fourBalances' : list Q :=
  [b100321_96; b99086_06; b100433_20; b100158_78].

(** The binary64 values of 92712.46, 105484.60 and 101802.94: their sum is
    300,000 and 2^-36. *)
Definition threeBalances : list Q :=
  [6371151738107331 # 68719476736; 3624423257853133 # 34359738368;
   1748961191746601 # 17179869184].

(** Four whole balances whose absolute values add up to more than 2^53:
    their sum is 400,001. *)
Definition cancellingBalances : list Q :=
  [inject_Z (2 ^ 53); inject_Z 1; inject_Z (- 2 ^ 53); inject_Z 400000].

(** * Further vocabulary *)

(** The transactions of [txs] of type [ty] whose amount equals that of [t]. *)
Definition sameAmount (ty : string) (t : Transaction) (txs : list Transaction)
  : list Transaction :=
  List.filter (fun t' => (String.eqb (type t') ty
                          && Qeq_bool (amount t') (amount t))%bool) txs.

(** The distinct elements of a list, each at its first occurrence. *)
Fixpoint firstOccurrences {A : Type} (dec : forall x y : A, {x = y} + {x <> y})
  (l : list A) : list A :=
  match l with
  | [] => []
  | x :: l' =>
      x :: List.filter (fun y => if dec y x then false else true)
                       (firstOccurrences dec l')
  end.

(** An analyzer whose suspicious-hour window runs from 9 to 17. *)
Definition officeHours (txs : list Transaction) : BankAnalyzer :=
  {| transactions := txs;
     fraudThresholds :=
       {| velocityLimit := 5;
          largeTransactionThreshold := 500000;
          suspiciousTimeRange := {| start := 9; end_ := 17 |} |} |}.
(** Both keys are array indices, the first one the smaller. *)
Definition index_lt {K : Type} (arrayIndex : K -> option N) (k k' : K) : Prop :=
  exists i j, arrayIndex k = Some i /\ arrayIndex k' = Some j /\ (i < j)%N.

(** A number that is a whole number between 0 and 2^32 - 2: its key is an
    array index. *)
Definition wholeAmount (q : Q) : Prop :=
  exists n : Z, 0 <= n <= 4294967294 /\ (q == inject_Z n)%Q.

(** Every member of the first group has a smaller amount than every member
    of the second. *)
Definition amountsBelow (g g' : list Transaction) : Prop :=
  forall t t', In t g -> In t' g' -> (amount t < amount t')%Q.

(** A credit of 75000. *)
Definition bonus (d : Z) : Transaction :=
  {| date := d; amount := 75000 # 1; type := "Credit";
     channel := "Net Banking Transfer"; balance := 200000 # 1 |}.

Definition payroll : list Transaction :=
  [bonus 1704448800000; salary 1704448800000; bonus 1707127200000;
   salary 1707127200000; bonus 1709632800000; salary 1709632800000].
(** * The upload pipeline: [processFile], [handleDrop], [handleFileInput]

    The spreadsheet reader is outside the source: a file is modelled by its
    name and by what reading it gives, either an exception or a workbook
    whose sheets are the row arrays of [sheet_to_json(sheet, {header: 1})].
    A string is a sequence of code units below 256. *)

(** ** Completions *)

Inductive exception : Type :=
| Error (message : string)   (* [new Error(message)], or the reader's error *)
| TypeError_trim             (* [.trim] called on a value that is no string *)
| RangeError_date.           (* [toISOString()] of an invalid date *)

Inductive completion (A : Type) : Type :=
| Normal (a : A)
| Throw (e : exception).

Arguments Normal {A} a.
Arguments Throw {A} e.

(** [xs.map(f)] for an [f] that may throw: the first exception wins. *)
Fixpoint mapThrowing {A B : Type} (f : A -> completion B) (xs : list A)
  : completion (list B) :=
  match xs with
  | [] => Normal []
  | x :: xs' =>
      match f x with
      | Throw e => Throw e
      | Normal y =>
          match mapThrowing f xs' with
          | Throw e => Throw e
          | Normal ys => Normal (y :: ys)
          end
      end
  end.

(** ** Cells and rows *)

Module Sheet.

Inductive cell : Type :=
| Blank                    (* [undefined]: an empty cell, a short row *)
| Number (n : JS.number)
| Text (s : string)
| Boolean (b : bool)
| DateValue (t : Z).       (* a Date object made by the reader *)

Definition row : Type := list cell.

(** [row[i]]. *)
Definition get (r : row) (i : nat) : cell := nth i r Blank.

Definition ToBoolean (c : cell) : bool :=
  match c with
  | Blank => false
  | Number (JS.Finite q) => negb (Qeq_bool q 0)
  | Number JS.Infinity => true
  | Number JS.NegInfinity => true
  | Number JS.NaN => false
  | Text s => negb (String.eqb s "")
  | Boolean b => b
  | DateValue _ => true
  end.

(** [c || 0]. *)
Definition orZero (c : cell) : cell :=
  if ToBoolean c then c else Number (JS.Finite 0).

End Sheet.

(** ** Strings: [trim] and [endsWith] *)

Module Str.

(** White space and line terminators among the code units below 256. *)
Definition isWhiteSpace (c : ascii) : bool :=
  let n := nat_of_ascii c in
  ((9 <=? n) && (n <=? 13) || (n =? 32) || (n =? 160))%nat%bool.

Fixpoint trimStart (s : string) : string :=
  match s with
  | EmptyString => EmptyString
  | String c s' => if isWhiteSpace c then trimStart s' else s
  end.

Fixpoint trimEnd (s : string) : string :=
  match s with
  | EmptyString => EmptyString
  | String c s' =>
      match trimEnd s' with
      | EmptyString => if isWhiteSpace c then EmptyString
                       else String c EmptyString
      | r => String c r
      end
  end.

Definition trim (s : string) : string := trimEnd (trimStart s).

Definition endsWith (s suffix : string) : bool :=
  let n := String.length s in
  let m := String.length suffix in
  if (m <=? n)%nat then String.eqb (substring (n - m) m s) suffix else false.

Fixpoint allWhiteSpace (s : string) : bool :=
  match s with
  | EmptyString => true
  | String c s' => (isWhiteSpace c && allWhiteSpace s')%bool
  end.

(** The first code unit, if any, is no white space. *)
Definition startsClean (s : string) : bool :=
  match s with
  | EmptyString => true
  | String c _ => negb (isWhiteSpace c)
  end.

(** The last code unit, if any, is no white space. *)
Fixpoint endsClean (s : string) : bool :=
  match s with
  | EmptyString => true
  | String c EmptyString => negb (isWhiteSpace c)
  | String _ s' => endsClean s'
  end.

End Str.

(** ** Rows to transactions *)

Module Raw.

(** A transaction as [processFile] builds it: the date is a Date object
    ([None] when invalid), the other fields are cells as read. *)
Record t : Type := {
  date : option Z;
  amount : Sheet.cell;
  type : string;
  channel : Sheet.cell;
  balance : Sheet.cell
}.

End Raw.

Module Trend.
Record item : Type := { day : Sheet.cell; balance : Sheet.cell }.
End Trend.

(** [TimeClip]: beyond 8.64e15 ms there is no date; fractions are cut. *)
Definition TimeClip (q : Q) : option Z :=
  if Qle_bool (Qabs q) (inject_Z 8640000000000000)
  then Some (Z.quot (Qnum q) (Z.pos (Qden q)))
  else None.

Section Upload.

(** [Date.parse], which the language leaves to the host. *)
Variable Date_parse : string -> option Z.
(** The messages the host gives to its own exceptions. *)
Variable TypeError_message RangeError_message : string.
Variable LocalTZA : Z -> Z.
(** What the three analyses return on transactions some field of which is
    of a kind outside the data model (see [analyzeRows]). *)
Variable analyzeOther : list Raw.t -> AnalysisResult.

(** [err.message]. *)
Definition message (e : exception) : string :=
  match e with
  | Error m => m
  | TypeError_trim => TypeError_message
  | RangeError_date => RangeError_message
  end.

(** [new Date(c)]: the time value of the new date, [None] when invalid. *)
Definition newDate (c : Sheet.cell) : option Z :=
  match c with
  | Sheet.Blank => None
  | Sheet.Number (JS.Finite q) => TimeClip q
  | Sheet.Number _ => None
  | Sheet.Text s => Date_parse s
  | Sheet.Boolean b => Some (if b then 1 else 0)
  | Sheet.DateValue t => Some t
  end.

(** [(c || '').trim()]. *)
Definition typeText (c : Sheet.cell) : completion string :=
  if Sheet.ToBoolean c
  then match c with
       | Sheet.Text s => Normal (Str.trim s)
       | _ => Throw TypeError_trim
       end
  else Normal (Str.trim "").

(** The callback of [.map] in [processFile]. *)
Definition rowToTransaction (row : Sheet.row) : completion Raw.t :=
  let date := newDate (Sheet.get row 1) in
  let amount := Sheet.get row 4 in
  match typeText (Sheet.get row 9) with
  | Throw e => Throw e
  | Normal type =>
      Normal {| Raw.date := date; Raw.amount := amount; Raw.type := type;
                Raw.channel := Sheet.get row 5;
                Raw.balance := Sheet.get row 6 |}
  end.

(** [t.date && t.amount] as a condition: a Date object is truthy, valid or
    not, so the value tested is [t.amount]. *)
Definition isKept (t : Raw.t) : bool :=
  let dateIsTruthy := true in
  (dateIsTruthy && Sheet.ToBoolean (Raw.amount t))%bool.

(** [sheet_to_json(...).slice(1).map(...).filter(...)]. *)
Definition parseTransactions (rows : list Sheet.row) : completion (list Raw.t) :=
  match mapThrowing rowToTransaction (tl rows) with
  | Throw e => Throw e
  | Normal ts => Normal (List.filter isKept ts)
  end.

(** The balance sheet: [.slice(1).map(...).filter(item => item.balance)]. *)
Definition parseBalances (rows : list Sheet.row) : list Trend.item :=
  List.filter (fun item => Sheet.ToBoolean (Trend.balance item))
    (map (fun row => {| Trend.day := Sheet.get row 0;
                        Trend.balance := Sheet.orZero (Sheet.get row 3) |})
         (tl rows)).

(** A raw transaction whose fields are of the kinds the class is modelled
    for: a valid date, finite numbers for amount and balance, a string for
    the channel. *)
Definition toTransaction (r : Raw.t) : option Transaction :=
  match Raw.date r, Raw.amount r, Raw.channel r, Raw.balance r with
  | Some d, Sheet.Number (JS.Finite a), Sheet.Text c, Sheet.Number (JS.Finite b) =>
      Some {| date := d; amount := a; type := Raw.type r; channel := c;
              balance := b |}
  | _, _, _, _ => None
  end.

Fixpoint toTransactions (rs : list Raw.t) : option (list Transaction) :=
  match rs with
  | [] => Some []
  | r :: rs' =>
      match toTransaction r, toTransactions rs' with
      | Some t, Some ts => Some (t :: ts)
      | _, _ => None
      end
  end.

Definition hasInvalidDate (rs : list Raw.t) : bool :=
  existsb (fun r => match Raw.date r with None => true | Some _ => false end) rs.

(** The three analyses on the transactions of a sheet. The pattern
    detector throws nothing; the fraud screen throws at the first invalid
    date, in [toISOString]; with valid dates nothing throws, whatever the
    other cells hold: a key of [groupBy] may be any value, [+], [/] and
    [>] convert their operands, [includes] compares with [===]. The result
    is that of the class as modelled above when every field is of a
    modelled kind, and is left to [analyzeOther] when some field is not (a
    blank balance or channel, an amount that is a string). *)
Definition analyzeRows (rs : list Raw.t) : completion AnalysisResult :=
  if hasInvalidDate rs then Throw RangeError_date
  else match toTransactions rs with
       | Some txs => Normal (results LocalTZA txs)
       | None => Normal (analyzeOther rs)
       end.

(** ** The component's state and [processFile] *)

Record State : Type := {
  shownResults : option AnalysisResult;   (* results *)
  loading : bool;
  error : option string;
  balanceTrend : list Trend.item
}.

Definition setResults (r : option AnalysisResult) (s : State) : State :=
  {| shownResults := r; loading := loading s; error := error s;
     balanceTrend := balanceTrend s |}.

Definition setLoading (b : bool) (s : State) : State :=
  {| shownResults := shownResults s; loading := b; error := error s;
     balanceTrend := balanceTrend s |}.

Definition setError (e : option string) (s : State) : State :=
  {| shownResults := shownResults s; loading := loading s; error := e;
     balanceTrend := balanceTrend s |}.

Definition setBalanceTrend (b : list Trend.item) (s : State) : State :=
  {| shownResults := shownResults s; loading := loading s; error := error s;
     balanceTrend := b |}.

Record Workbook : Type := { Sheets : string -> option (list Sheet.row) }.

Record File : Type := {
  name : string;
  content : completion Workbook    (* [XLSX.read(await file.arrayBuffer())] *)
}.

(** The [try] block of [processFile]: the state it reaches and how it
    completes. *)
Definition tryBlock (file : File) (s : State) : State * completion unit :=
  match content file with
  | Throw e => (s, Throw e)
  | Normal workbook =>
      match Sheets workbook "Transactions" with
      | None =>
          (s, Throw (Error "No Transactions sheet found in the uploaded file"))
      | Some transactionSheet =>
          match parseTransactions transactionSheet with
          | Throw e => (s, Throw e)
          | Normal transactions =>
              let s :=
                match Sheets workbook "Daily EOD Balances" with
                | Some balanceSheet =>
                    setBalanceTrend (parseBalances balanceSheet) s
                | None => s
                end in
              match analyzeRows transactions with
              | Throw e => (s, Throw e)
              | Normal r => (setResults (Some r) s, Normal tt)
              end
          end
      end
  end.

Definition processFile (file : File) (s : State) : State :=
  let s := setLoading true s in
  let s := setError None s in
  match tryBlock file s with
  | (s, Normal _) => setLoading false s
  | (s, Throw err) => setLoading false (setError (Some (message err)) s)
  end.

Definition uploadHint : string := "Please upload an Excel (.xlsx) file".

(** [handleDrop]: [file] is [e.dataTransfer.files[0]]. *)
Definition handleDrop (file : option File) (s : State) : State :=
  match file with
  | Some f =>
      if Str.endsWith (name f) ".xlsx" then processFile f s
      else setError (Some uploadHint) s
  | None => setError (Some uploadHint) s
  end.

(** [handleFileInput]: [file] is [e.target.files[0]]. *)
Definition handleFileInput (file : option File) (s : State) : State :=
  match file with
  | Some f =>
      if Str.endsWith (name f) ".xlsx" then processFile f s
      else setError (Some uploadHint) s
  | None => setError (Some uploadHint) s
  end.

End Upload.

(** ** What the page shows of a result *)

(** [results.fraudIndicators.highVelocity.length > 0]. *)
Definition velocityAlert (r : AnalysisResult) : bool :=
  0 <? Z.of_nat (length (highVelocity (fraudIndicators r))).

(** [Object.keys(results.patterns.regularIncome).length]. *)
Definition incomeSources (r : AnalysisResult) : nat :=
  length (JS.Object_keys (regularIncome (patterns r))).

(** [Object.keys(results.patterns.recurringExpenses).length]. *)
Definition recurringPayments (r : AnalysisResult) : nat :=
  length (JS.Object_keys (recurringExpenses (patterns r))).
(** ** Sample sheets *)

Definition headerRow : Sheet.row := [Sheet.Text "Id"; Sheet.Text "Date"].

(** A row with the cells that [processFile] reads: date, amount, type,
    channel, balance. *)
Definition sheetRow (d a ty ch b : Sheet.cell) : Sheet.row :=
  [Sheet.Blank; d; Sheet.Blank; Sheet.Blank; a; ch; b; Sheet.Blank;
   Sheet.Blank; ty].

(** A credit with padded type text, and a row with an amount but no date. *)
Definition paddedCredit : Sheet.row :=
  sheetRow (Sheet.DateValue 1704929400000) (Sheet.Number (JS.Finite (100 # 1)))
           (Sheet.Text "  Credit ") (Sheet.Text "UPI")
           (Sheet.Number (JS.Finite (5 # 1))).

Definition undated : Sheet.row :=
  sheetRow Sheet.Blank (Sheet.Number (JS.Finite (40 # 1)))
           (Sheet.Text "Debit") (Sheet.Text "Card")
           (Sheet.Number (JS.Finite (7 # 1))).

Definition noParse : string -> option Z := fun _ => None.


Definition idle : State :=
  {| shownResults := None; loading := false; error := None;
     balanceTrend := [] |}.
(** The result of the analyses on no transaction at all. *)
Definition emptyResult : AnalysisResult :=
  {| patterns := {| regularIncome := []; recurringExpenses := [] |};
     fraudIndicators := {| highVelocity := []; unusualTiming := [] |};
     opportunities := {| crossSell := []; upSell := [] |} |}.



(** A stand-in for the result of the analyses on rows outside the data
    model. *)
Definition noOther : list Raw.t -> AnalysisResult := fun _ => emptyResult.

(** A credit with a date and an amount, and no balance. *)
Definition blankBalance : Sheet.row :=
  sheetRow (Sheet.DateValue 1704929400000) (Sheet.Number (JS.Finite (100 # 1)))
           (Sheet.Text "Credit") (Sheet.Text "UPI") Sheet.Blank.

Definition blankBalanceFile : File :=
  {| name := "statement.xlsx";
     content :=
       Normal {| Sheets := fun n =>
                   if String.eqb n "Transactions"
                   then Some [headerRow; blankBalance]
                   else None |} |}.

(** The ledger with every date, amount and type replaced. *)
Definition relabelled (txs : list Transaction) : list Transaction :=
  map (fun t => {| date := 0; amount := 1 # 1; type := "Debit";
                   channel := channel t; balance := balance t |}) txs.

(** The undated debit next to a balance sheet with one day at 9 and one
    day at 0. *)
Definition undatedWithBalances : File :=
  {| name := "statement.xlsx";
     content :=
       Normal {| Sheets := fun n =>
                   if String.eqb n "Transactions"
                   then Some [headerRow; undated]
                   else if String.eqb n "Daily EOD Balances"
                        then Some [headerRow;
                                   [Sheet.Text "Mon"; Sheet.Blank; Sheet.Blank;
                                    Sheet.Number (JS.Finite (9 # 1))];
                                   [Sheet.Text "Tue"; Sheet.Blank; Sheet.Blank;
                                    Sheet.Number (JS.Finite (0 # 1))]]
                        else None |} |}.

Definition afterUndatedWithBalances : State :=
  {| shownResults := None; loading := false;
     error := Some "Invalid time value"%string;
     balanceTrend := [ {| Trend.day := Sheet.Text "Mon";
                          Trend.balance := Sheet.Number (JS.Finite (9 # 1)) |} ] |}.
(** The transactions of [txs] made in the UTC clock hour of [t]. *)
Definition sameClockHour (t : Transaction) (txs : list Transaction)
  : list Transaction :=
  List.filter (fun t' => hourIndex (date t') =? hourIndex (date t)) txs.

(** * Properties *)

(** ** Objects and [_.groupBy] *)

Section ObjectFacts.
Context {K V : Type}.
Variable K_dec : forall x y : K, {x = y} + {x <> y}.

Lemma get_None (o : @JS.object K V) k :
  JS.get K_dec o k = None <-> ~ In k (JS.keys o).
Proof.
  induction o as [|[k' v] o IH]; simpl.
  - tauto.
  - destruct (K_dec k k') as [->|Hne].
    + split; [discriminate | intros H; exfalso; apply H; now left].
    + rewrite IH. split.
      * intros H [E|E]; [now apply Hne | now apply H].
      * intros H E. apply H. now right.
Qed.

Lemma In_keys (o : @JS.object K V) k v : In (k, v) o -> In k (JS.keys o).
Proof. intros H. apply (in_map fst) in H. exact H. Qed.

Lemma get_Some (o : @JS.object K V) k v :
  NoDup (JS.keys o) -> (JS.get K_dec o k = Some v <-> In (k, v) o).
Proof.
  induction o as [|[k' v'] o IH]; simpl; intros Hnd.
  - split; [discriminate | tauto].
  - inversion Hnd as [|? ? Hnotin Hnd']; subst.
    destruct (K_dec k k') as [->|Hne].
    + split.
      * intros [= ->]. now left.
      * intros [[= ->]|Hin]; [reflexivity|].
        exfalso. apply Hnotin. eapply In_keys; eassumption.
    + rewrite (IH Hnd'). split.
      * intros H. now right.
      * intros [[= -> ->]|Hin]; [now elim Hne | exact Hin].
Qed.

Lemma keys_update (o : @JS.object K V) k f :
  JS.keys (JS.update K_dec o k f) = JS.keys o.
Proof.
  induction o as [|[k' v] o IH]; simpl; [reflexivity|].
  destruct (K_dec k k'); simpl; [reflexivity | now rewrite IH].
Qed.

Lemma In_update (o : @JS.object K V) k f k' v' :
  NoDup (JS.keys o) ->
  (In (k', v') (JS.update K_dec o k f) <->
   (k' <> k /\ In (k', v') o) \/ (k' = k /\ exists v, In (k, v) o /\ v' = f v)).
Proof.
  induction o as [|[k0 v0] o IH]; simpl; intros Hnd.
  - split; [tauto | intros [[_ []]|[_ [v [[] _]]]]].
  - inversion Hnd as [|? ? Hnotin Hnd']; subst.
    destruct (K_dec k k0) as [->|Hne]; simpl.
    + split.
      * intros [[= <- <-]|Hin].
        -- right. split; [reflexivity|]. exists v0. split; [now left | reflexivity].
        -- left. split; [|now right].
           intros ->. apply Hnotin. eapply In_keys; eassumption.
      * intros [[Hne [[= -> ->]|Hin]]|[-> [v [[[= ->]|Hin] ->]]]].
        -- now elim Hne.
        -- now right.
        -- now left.
        -- exfalso. apply Hnotin. eapply In_keys; eassumption.
    + rewrite (IH Hnd'). split.
      * intros [[= -> ->]|[[Hk Hin]|[-> [v [Hin ->]]]]].
        -- left. split; [congruence | now left].
        -- left. split; [exact Hk | now right].
        -- right. split; [reflexivity|]. exists v. split; [now right | reflexivity].
      * intros [[Hk [[= -> ->]|Hin]]|[-> [v [[[= -> ->]|Hin] ->]]]].
        -- now left.
        -- right. left. now split.
        -- now elim Hne.
        -- right. right. split; [reflexivity|]. now exists v.
Qed.

Variable arrayIndex : K -> option N.

Lemma define_Permutation (o : @JS.object K V) k v :
  Permutation (JS.define arrayIndex o k v) ((k, v) :: o).
Proof.
  induction o as [|[k' v'] o IH]; simpl; [reflexivity|].
  destruct (arrayIndex k) as [i|]; [destruct (arrayIndex k') as [i'|]|].
  - destruct (i <? i')%N; [reflexivity|].
    rewrite IH. apply perm_swap.
  - reflexivity.
  - rewrite IH. apply perm_swap.
Qed.

End ObjectFacts.

Section GroupByFacts.
Context {A K : Type}.
Variable K_dec : forall x y : K, {x = y} + {x <> y}.
Variable iteratee : A -> K.

Local Abbreviation bucket := (bucket K_dec iteratee).
Local Abbreviation grouped := (grouped K_dec iteratee).

Lemma bucket_app k l l' : bucket k (l ++ l') = bucket k l ++ bucket k l'.
Proof. apply filter_app. Qed.

Lemma bucket_cons_same k v l :
  iteratee v = k -> bucket k (v :: l) = v :: bucket k l.
Proof.
  intros H. unfold bucket. simpl.
  now destruct (K_dec (iteratee v) k).
Qed.

Lemma In_bucket k l v : In v (bucket k l) <-> In v l /\ iteratee v = k.
Proof.
  unfold bucket. rewrite filter_In.
  destruct (K_dec (iteratee v) k); intuition congruence.
Qed.

Lemma bucket_nonempty k l :
  bucket k l <> [] <-> exists v, In v l /\ iteratee v = k.
Proof.
  split.
  - destruct (bucket k l) as [|v g] eqn:E; [congruence|].
    intros _. exists v. apply In_bucket. rewrite E. now left.
  - intros [v Hv] E. apply In_bucket in Hv. rewrite E in Hv. exact Hv.
Qed.

Lemma bucket_Permutation k l l' :
  Permutation l l' -> Permutation (bucket k l) (bucket k l').
Proof.
  unfold bucket. induction 1; simpl.
  - constructor.
  - destruct (K_dec (iteratee x) k); [now constructor | assumption].
  - destruct (K_dec (iteratee x) k), (K_dec (iteratee y) k);
      try reflexivity. apply perm_swap.
  - etransitivity; eassumption.
Qed.

Variable arrayIndex : K -> option N.

Lemma grouped_nil : grouped [] [].
Proof.
  split; [constructor|]. intros k g. simpl. split; [tauto|].
  intros [-> H]. now apply H.
Qed.

Lemma grouped_setter o l v :
  grouped o l ->
  grouped (Lodash.groupBy_setter K_dec arrayIndex o v (iteratee v)) (l ++ [v]).
Proof.
  intros [Hnd Hin]. unfold Lodash.groupBy_setter.
  assert (Hone : forall k, bucket k [v] =
                           if K_dec (iteratee v) k then [v] else []).
  { intros k. unfold bucket. simpl. now destruct (K_dec (iteratee v) k). }
  destruct (JS.get K_dec o (iteratee v)) as [g0|] eqn:Hget.
  - apply (get_Some K_dec _ _ _ Hnd) in Hget.
    split; [now rewrite keys_update|].
    intros k g. rewrite (In_update K_dec _ _ _ _ _ Hnd).
    rewrite bucket_app, Hone.
    destruct (K_dec (iteratee v) k) as [<-|Hne].
    + split.
      * intros [[Hk _]|[_ [g1 [Hg1 ->]]]]; [now elim Hk|].
        apply Hin in Hg1. destruct Hg1 as [-> _].
        split; [reflexivity|]. now destruct (bucket (iteratee v) l).
      * intros [-> _]. right. split; [reflexivity|].
        exists g0. split; [exact Hget|].
        apply Hin in Hget. now destruct Hget as [-> _].
    + rewrite app_nil_r. split.
      * intros [[_ H]|[-> _]]; [now apply Hin | now elim Hne].
      * intros H. left. split; [congruence | now apply Hin].
  - apply get_None in Hget.
    pose proof (define_Permutation arrayIndex o (iteratee v) [v]) as Hp.
    split.
    + apply Permutation_NoDup with (l := iteratee v :: JS.keys o).
      * symmetry. exact (Permutation_map fst Hp).
      * now constructor.
    + intros k g. rewrite bucket_app, Hone. split.
      * intros H. apply (Permutation_in _ Hp) in H.
        destruct H as [[= <- <-]|H].
        -- destruct (K_dec (iteratee v) (iteratee v)) as [_|Hne]; [|now elim Hne].
           destruct (bucket (iteratee v) l) as [|x g'] eqn:E.
           ++ split; [reflexivity | discriminate].
           ++ exfalso. apply Hget.
              apply In_keys with (v := x :: g'). apply Hin.
              split; [now rewrite E | discriminate].
        -- destruct (K_dec (iteratee v) k) as [<-|Hne].
           ++ exfalso. apply Hget. eapply In_keys; eassumption.
           ++ rewrite app_nil_r. now apply Hin.
      * intros [-> Hne]. apply (Permutation_in _ (Permutation_sym Hp)).
        destruct (K_dec (iteratee v) k) as [<-|Hk].
        -- left. f_equal.
           destruct (bucket (iteratee v) l) as [|x g'] eqn:E; [reflexivity|].
           exfalso. apply Hget.
           apply In_keys with (v := x :: g'). apply Hin.
           split; [now rewrite E | discriminate].
        -- right. rewrite app_nil_r in *. now apply Hin.
Qed.

Lemma grouped_fold xs : forall o pre,
  grouped o pre ->
  grouped (fold_left (fun acc value =>
                        Lodash.groupBy_setter K_dec arrayIndex acc value (iteratee value))
                     xs o) (pre ++ xs).
Proof.
  induction xs as [|x xs IH]; simpl; intros o pre H.
  - now rewrite app_nil_r.
  - replace (pre ++ x :: xs) with ((pre ++ [x]) ++ xs)
      by (now rewrite <- app_assoc).
    apply IH. now apply grouped_setter.
Qed.

Lemma groupBy_grouped l :
  grouped (Lodash.groupBy K_dec arrayIndex iteratee l) l.
Proof. exact (grouped_fold l [] [] grouped_nil). Qed.

End GroupByFacts.

Lemma filter_Permutation {A : Type} (p : A -> bool) (l l' : list A) :
  Permutation l l' -> Permutation (List.filter p l) (List.filter p l').
Proof.
  induction 1; simpl.
  - constructor.
  - destruct (p x); [now constructor | assumption].
  - destruct (p x), (p y); try reflexivity. apply perm_swap.
  - etransitivity; eassumption.
Qed.

Section FilterGroupBy.
Context {A K : Type}.
Variable K_dec : forall x y : K, {x = y} + {x <> y}.
Variable arrayIndex : K -> option N.
Variable iteratee : A -> K.
Variable predicate : list A -> bool.

Local Abbreviation groupBy := (Lodash.groupBy K_dec arrayIndex iteratee).
Local Abbreviation bucket := (bucket K_dec iteratee).

Lemma In_filter_groupBy l g :
  In g (Lodash.filter predicate (groupBy l)) <->
  exists k, g = bucket k l /\ g <> [] /\ predicate g = true.
Proof.
  unfold Lodash.filter, JS.values. rewrite filter_In, in_map_iff.
  destruct (groupBy_grouped K_dec iteratee arrayIndex l) as [_ Hin].
  split.
  - intros [[[k g'] [<- H]] Hp]. apply Hin in H. exists k. tauto.
  - intros [k [Hg [Hne Hp]]]. split; [|exact Hp].
    exists (k, g). split; [reflexivity|]. now apply Hin.
Qed.

Lemma In_keys_groupBy l k :
  In k (JS.keys (groupBy l)) <-> exists v, In v l /\ iteratee v = k.
Proof.
  destruct (groupBy_grouped K_dec iteratee arrayIndex l) as [_ Hin].
  rewrite <- (bucket_nonempty K_dec iteratee). unfold JS.keys.
  rewrite in_map_iff. split.
  - intros [[k' g] [<- H]]. apply Hin in H. simpl. now destruct H as [<- H].
  - intros H. exists (k, bucket k l). split; [reflexivity|]. now apply Hin.
Qed.

Lemma groupBy_values l :
  JS.values (groupBy l) = map (fun k => bucket k l) (JS.keys (groupBy l)).
Proof.
  destruct (groupBy_grouped K_dec iteratee arrayIndex l) as [_ Hin].
  assert (H : forall k g, In (k, g) (groupBy l) -> g = bucket k l)
    by (intros k g Hg; now apply Hin in Hg).
  clear Hin. unfold JS.values, JS.keys.
  induction (groupBy l) as [|[k g] o IH]; simpl; [reflexivity|].
  f_equal.
  - apply H. now left.
  - apply IH. intros k' g' Hg. apply H. now right.
Qed.

Lemma keys_groupBy_Permutation l l' :
  Permutation l l' ->
  Permutation (JS.keys (groupBy l)) (JS.keys (groupBy l')).
Proof.
  intros Hp. apply NoDup_Permutation.
  - apply (groupBy_grouped K_dec iteratee arrayIndex l).
  - apply (groupBy_grouped K_dec iteratee arrayIndex l').
  - intros k. rewrite !In_keys_groupBy. split; intros [v [Hv Hk]]; exists v;
      (split; [|exact Hk]).
    + eapply Permutation_in; eassumption.
    + eapply Permutation_in; [symmetry|]; eassumption.
Qed.

Hypothesis predicate_Permutation :
  forall g g', Permutation g g' -> predicate g = predicate g'.

Lemma filter_groupBy_Permutation l l' :
  Permutation l l' ->
  same_groups (Lodash.filter predicate (groupBy l))
              (Lodash.filter predicate (groupBy l')).
Proof.
  intros Hp. unfold Lodash.filter. rewrite !groupBy_values.
  exists (List.filter predicate
            (map (fun k => bucket k l) (JS.keys (groupBy l')))).
  split.
  - apply filter_Permutation, Permutation_map.
    now apply keys_groupBy_Permutation.
  - induction (JS.keys (groupBy l')) as [|k ks IH]; simpl; [constructor|].
    pose proof (bucket_Permutation K_dec iteratee k l l' Hp) as Hb.
    rewrite <- (predicate_Permutation _ _ Hb).
    destruct (predicate (bucket k l)); [constructor|]; assumption.
Qed.

End FilterGroupBy.

(** ** Numbers: [>], [_.mean] and [_.max] *)

Lemma Qgtb_lt (x y : Q) : JS.Qgtb x y = true <-> (y < x)%Q.
Proof.
  unfold JS.Qgtb. rewrite negb_true_iff.
  split.
  - intros H. apply Qnot_le_lt. intros Hle.
    apply Qle_bool_iff in Hle. congruence.
  - intros H. destruct (Qle_bool x y) eqn:E; [|reflexivity].
    apply Qle_bool_iff in E. exfalso. now apply (Qlt_not_le y x).
Qed.

Lemma Qgtb_le (x y : Q) : JS.Qgtb x y = false <-> (x <= y)%Q.
Proof.
  unfold JS.Qgtb. rewrite negb_false_iff. apply Qle_bool_iff.
Qed.

Lemma gt_exceeds (x : JS.number) (y : Q) :
  JS.gt (JS.Num x) (JS.Num (JS.Finite y)) = true <-> exceeds x y.
Proof.
  destruct x; cbn [JS.gt JS.ToNumber exceeds].
  - apply Qgtb_lt.
  - tauto.
  - split; [discriminate | tauto].
  - split; [discriminate | tauto].
Qed.

Lemma baseSum_fold l : forall a,
  fold_left (fun result current =>
               match result with
               | None => Some (JS.Finite current)
               | Some r => Some (JS.add r (JS.Finite current))
               end) l (Some a) = Some (sumFrom a l).
Proof.
  induction l as [|x l IH]; intros a; cbn [fold_left sumFrom];
    [reflexivity | apply IH].
Qed.

Lemma baseSum_cons x l :
  Lodash.baseSum (x :: l) = Some (sumFrom (JS.Finite x) l).
Proof.
  unfold Lodash.baseSum. cbn [fold_left]. apply baseSum_fold.
Qed.

Lemma mean_roundedMean (l : list Q) : Lodash.mean l = roundedMean l.
Proof.
  destruct l as [|x l]; [reflexivity|].
  unfold Lodash.mean, roundedMean. cbn [length]. now rewrite baseSum_cons.
Qed.

Lemma baseExtremum_fold l : forall a,
  exists m,
    fold_left (fun computed current =>
                 match computed with
                 | None => Some current
                 | Some c => if JS.Qgtb current c then Some current else Some c
                 end) l (Some a) = Some m /\ is_max m (a :: l).
Proof.
  induction l as [|x l IH]; simpl; intros a.
  - exists a. split; [reflexivity|]. split; [now left|].
    intros y [<-|[]]. apply Qle_refl.
  - destruct (JS.Qgtb x a) eqn:E.
    + destruct (IH x) as [m [Hm [Hin Hmax]]]. exists m.
      split; [exact Hm|]. split.
      * right. exact Hin.
      * intros y [<-|Hy]; [|now apply Hmax].
        apply Qgtb_lt in E. apply Qle_trans with x.
        -- now apply Qlt_le_weak.
        -- apply Hmax. now left.
    + destruct (IH a) as [m [Hm [Hin Hmax]]]. exists m.
      split; [exact Hm|]. split.
      * destruct Hin as [<-|Hin]; [now left | right; now right].
      * intros y [<-|[<-|Hy]].
        -- apply Hmax. now left.
        -- apply Qgtb_le in E. apply Qle_trans with a; [exact E|].
           apply Hmax. now left.
        -- apply Hmax. now right.
Qed.

Lemma baseExtremum_cons x l :
  exists m, Lodash.baseExtremum (x :: l) = Some m /\ is_max m (x :: l).
Proof.
  unfold Lodash.baseExtremum. simpl. apply baseExtremum_fold.
Qed.

Lemma max_gt (l : list Q) (y : Q) :
  JS.gt (Lodash.max l) (JS.Num (JS.Finite y)) = true <->
  exists m, is_max m l /\ (y < m)%Q.
Proof.
  destruct l as [|x l].
  - simpl. split; [discriminate | intros [m [[[] _] _]]].
  - destruct (baseExtremum_cons x l) as [m [Hm Hmax]].
    unfold Lodash.max. cbn [length]. rewrite Hm. cbn [JS.gt JS.ToNumber].
    rewrite Qgtb_lt. split.
    + intros H. now exists m.
    + intros [m' [[Hin' Hmax'] Hlt]].
      apply Qlt_le_trans with m'; [exact Hlt|].
      now apply Hmax.
Qed.

Lemma mean_gt (l : list Q) (y : Q) :
  JS.gt (JS.Num (Lodash.mean l)) (JS.Num (JS.Finite y)) = true <->
  exceeds (roundedMean l) y.
Proof. rewrite mean_roundedMean. apply gt_exceeds. Qed.

Lemma div_length_gt (n d : nat) (y : Q) :
  (n <= d)%nat ->
  (JS.gt (JS.Num (JS.div_length n d)) (JS.Num (JS.Finite y)) = true <->
   d <> O /\ (y < inject_Z (Z.of_nat n) / inject_Z (Z.of_nat d))%Q).
Proof.
  intros Hle. destruct d as [|d].
  - assert (n = O) by lia. subst n. simpl.
    split; [discriminate | intros [H _]; now elim H].
  - cbn [JS.div_length JS.gt JS.ToNumber]. rewrite Qgtb_lt.
    split; [intros H; split; [discriminate | exact H] | intros [_ H]; exact H].
Qed.

Lemma bool_eq_iff (b b' : bool) : (b = true <-> b' = true) -> b = b'.
Proof. destruct b, b'; intuition congruence. Qed.

Lemma Qred_inject_Z (n : Z) : Qred (inject_Z n) = inject_Z n.
Proof.
  unfold Qred, inject_Z.
  pose proof (Z.ggcd_gcd n 1) as Hg.
  pose proof (Z.ggcd_correct_divisors n 1) as Hd.
  destruct (Z.ggcd n 1) as [g [r1 r2]]. cbn [fst snd] in *.
  rewrite Z.gcd_1_r in Hg. subst g. destruct Hd as [H1 H2].
  assert (E1 : r1 = n) by lia. assert (E2 : r2 = 1) by lia.
  rewrite E1, E2. reflexivity.
Qed.

(** ** Rounding *)

Lemma pow2_pos (a : Z) : 0 <= a -> 0 < 2 ^ a.
Proof. intros H. now apply Z.pow_pos_nonneg. Qed.

Lemma pow2_add (a b : Z) : 0 <= a -> 0 <= b -> 2 ^ (a + b) = 2 ^ a * 2 ^ b.
Proof. intros Ha Hb. now apply Z.pow_add_r. Qed.

Lemma pow2_le (a b : Z) : a <= b -> 2 ^ a <= 2 ^ b.
Proof. intros H. apply Z.pow_le_mono_r; lia. Qed.

(** [scale n d e] in one formula: one of the two powers is [2^0]. *)
Lemma scale_spec (n d e : Z) :
  JS.scale n d e = (n * 2 ^ Z.max (- e) 0, d * 2 ^ Z.max e 0).
Proof.
  unfold JS.scale. destruct (Z.leb_spec 0 e).
  - rewrite (Z.max_r (- e) 0), (Z.max_l e 0) by lia.
    now rewrite Z.pow_0_r, Z.mul_1_r.
  - rewrite (Z.max_l (- e) 0), (Z.max_r e 0) by lia.
    now rewrite Z.pow_0_r, Z.mul_1_r.
Qed.

Lemma ilog2_spec (n d : Z) :
  0 < n -> 0 < d ->
  pow2_le_frac (JS.ilog2 n d) n d /\ frac_lt_pow2 n d (JS.ilog2 n d + 1).
Proof.
  intros Hn Hd. unfold JS.ilog2.
  pose proof (Z.log2_spec n Hn) as [Hn1 Hn2].
  pose proof (Z.log2_spec d Hd) as [Hd1 Hd2].
  pose proof (Z.log2_nonneg n) as Ha. pose proof (Z.log2_nonneg d) as Hb.
  set (a := Z.log2 n) in *. set (b := Z.log2 d) in *.
  rewrite scale_spec.
  unfold pow2_le_frac, frac_lt_pow2.
  destruct (Z.leb_spec (d * 2 ^ Z.max (a - b) 0) (n * 2 ^ Z.max (- (a - b)) 0))
    as [Hle|Hlt].
  - split; [exact Hle|].
    (* n < 2^(a+1), 2^b <= d, a + 1 = (k + 1) + b *)
    destruct (Z.le_gt_cases 0 (a - b + 1)) as [Hk|Hk].
    + rewrite (Z.max_r (- (a - b + 1)) 0), (Z.max_l (a - b + 1) 0) by lia.
      rewrite Z.pow_0_r, Z.mul_1_r.
      replace (Z.succ a) with (a - b + 1 + b) in Hn2 by lia.
      rewrite pow2_add in Hn2 by lia.
      pose proof (pow2_pos (a - b + 1) Hk). nia.
    + rewrite (Z.max_l (- (a - b + 1)) 0), (Z.max_r (a - b + 1) 0) by lia.
      rewrite Z.pow_0_r, Z.mul_1_r.
      replace b with (Z.succ a + (- (a - b + 1))) in Hd1 by lia.
      rewrite pow2_add in Hd1 by lia.
      pose proof (pow2_pos (- (a - b + 1)) ltac:(lia)). nia.
  - split.
    + (* 2^a <= n, d < 2^(b+1), a = (k - 1) + (b + 1) *)
      destruct (Z.le_gt_cases 0 (a - b - 1)) as [Hk|Hk].
      * rewrite (Z.max_r (- (a - b - 1)) 0), (Z.max_l (a - b - 1) 0) by lia.
        rewrite Z.pow_0_r, Z.mul_1_r.
        replace a with (a - b - 1 + Z.succ b) in Hn1 at 1 by lia.
        rewrite pow2_add in Hn1 by lia.
        pose proof (pow2_pos (a - b - 1) Hk). nia.
      * rewrite (Z.max_l (- (a - b - 1)) 0), (Z.max_r (a - b - 1) 0) by lia.
        rewrite Z.pow_0_r, Z.mul_1_r.
        replace (Z.succ b) with (a + (- (a - b - 1))) in Hd2 by lia.
        rewrite pow2_add in Hd2 by lia.
        pose proof (pow2_pos (- (a - b - 1)) ltac:(lia)). nia.
    + replace (a - b - 1 + 1) with (a - b) by lia. exact Hlt.
Qed.

Lemma nearestEven_ge (N D B : Z) :
  0 < D -> B * D <= N -> B <= JS.nearestEven N D.
Proof.
  intros HD H. unfold JS.nearestEven.
  pose proof (Z.div_mod N D ltac:(lia)) as E.
  pose proof (Z.mod_pos_bound N D HD) as Hr.
  assert (B <= N / D) by (apply Z.div_le_lower_bound; lia).
  destruct (2 * (N mod D) ?= D); [destruct (Z.even (N / D))| |]; lia.
Qed.

Lemma nearestEven_le (N D B : Z) :
  0 < D -> N <= B * D -> JS.nearestEven N D <= B.
Proof.
  intros HD H. unfold JS.nearestEven.
  pose proof (Z.div_mod N D ltac:(lia)) as E.
  pose proof (Z.mod_pos_bound N D HD) as Hr.
  set (q := N / D) in *. set (r := N mod D) in *.
  destruct (Z.compare_spec (2 * r) D); [destruct (Z.even q)| |]; nia.
Qed.

Lemma nearestEven_gt_iff (N D M : Z) :
  0 < D -> Z.even M = true ->
  (M < JS.nearestEven N D <-> (2 * M + 1) * D < 2 * N).
Proof.
  intros HD HM. unfold JS.nearestEven.
  pose proof (Z.div_mod N D ltac:(lia)) as E.
  pose proof (Z.mod_pos_bound N D HD) as Hr.
  set (q := N / D) in *. set (r := N mod D) in *.
  destruct (Z.compare_spec (2 * r) D) as [H|H|H].
  - destruct (Z.even q) eqn:Hq.
    + split; nia.
    + assert (M <> q) by (intros ->; congruence).
      split; nia.
  - split; nia.
  - split; nia.
Qed.

Lemma nearestEven_exact (m D : Z) : 0 < D -> JS.nearestEven (m * D) D = m.
Proof.
  intros HD. unfold JS.nearestEven.
  rewrite Z.div_mul, Z.mod_mul by lia.
  destruct (Z.compare_spec (2 * 0) D); lia.
Qed.

Lemma to_pos_pow2 (a : Z) : 0 <= a -> Z.pos (Z.to_pos (2 ^ a)) = 2 ^ a.
Proof. intros H. apply Z2Pos.id. now apply pow2_pos. Qed.

(** When the rounded value of a positive fraction exceeds a binary64 value
    [M * 2^E] with an even significand: exactly when the fraction exceeds
    the midpoint [(M + 1/2) * 2^E]. *)
Lemma roundPositive_exceeds (n d M E : Z) :
  0 < n -> 0 < d -> - 1074 < E < 0 -> 2 ^ 52 <= M < 2 ^ 53 ->
  Z.even M = true ->
  (match JS.roundPositive n d with
   | Some r => (M # Z.to_pos (2 ^ (- E)) < r)%Q
   | None => True
   end <-> (2 * M + 1) * d < n * 2 ^ (1 - E)).
Proof.
  intros Hn Hd HE HM Heven.
  destruct (ilog2_spec n d Hn Hd) as [Hge Hlt].
  unfold JS.roundPositive. set (k := JS.ilog2 n d) in *.
  rewrite scale_spec.
  set (e := Z.max (k - 52) (- 1074)).
  assert (HP : 2 ^ (1 - E) = 2 * 2 ^ (- E)).
  { replace (1 - E) with (1 + - E) by lia. now rewrite pow2_add by lia. }
  pose proof (pow2_pos (- E) ltac:(lia)) as HPE.
  destruct (Z.lt_trichotomy k (E + 52)) as [Hk|[Hk|Hk]].
  - (* below the binade of the threshold: both sides fail *)
    assert (He : e <= E - 1) by lia.
    destruct (Z.leb_spec 0 e) as [H0|H0]; [lia|].
    rewrite (Z.max_l (- e) 0), (Z.max_r e 0) by lia.
    rewrite Z.pow_0_r, Z.mul_1_r.
    assert (Hm : JS.nearestEven (n * 2 ^ (- e)) d <= 2 ^ 53).
    { apply nearestEven_le; [exact Hd|].
      unfold frac_lt_pow2 in Hlt.
      destruct (Z.le_gt_cases 0 (k + 1)) as [Hk1|Hk1].
      - rewrite (Z.max_r (- (k + 1)) 0), (Z.max_l (k + 1) 0) in Hlt by lia.
        rewrite Z.pow_0_r, Z.mul_1_r in Hlt.
        assert (2 ^ (k + 1) * 2 ^ (- e) <= 2 ^ 53).
        { rewrite <- pow2_add by lia. apply pow2_le. lia. }
        pose proof (pow2_pos (- e) ltac:(lia)). nia.
      - rewrite (Z.max_l (- (k + 1)) 0), (Z.max_r (k + 1) 0) in Hlt by lia.
        rewrite Z.pow_0_r, Z.mul_1_r in Hlt.
        assert (2 ^ (- e) <= 2 ^ (- (k + 1)) * 2 ^ 53).
        { rewrite <- pow2_add by lia. apply pow2_le. lia. }
        nia. }
    set (m := JS.nearestEven (n * 2 ^ (- e)) d) in *.
    assert (Hee : 2 * 2 ^ (- E) <= 2 ^ (- e)).
    { replace (2 * 2 ^ (- E)) with (2 ^ (1 + - E)) by (now rewrite pow2_add by lia).
      apply pow2_le. lia. }
    split.
    + intros H. exfalso. rewrite Qred_correct in H.
      unfold Qlt in H. cbn [Qnum Qden] in H.
      rewrite !to_pos_pow2 in H by lia. nia.
    + intros H. exfalso. rewrite HP in H.
      unfold frac_lt_pow2 in Hlt.
      destruct (Z.le_gt_cases 0 (k + 1)) as [Hk1|Hk1].
      * rewrite (Z.max_r (- (k + 1)) 0), (Z.max_l (k + 1) 0) in Hlt by lia.
        rewrite Z.pow_0_r, Z.mul_1_r in Hlt.
        assert (2 ^ (k + 1) * 2 ^ (- E) <= 2 ^ 52).
        { rewrite <- pow2_add by lia. apply pow2_le. lia. }
        nia.
      * rewrite (Z.max_l (- (k + 1)) 0), (Z.max_r (k + 1) 0) in Hlt by lia.
        rewrite Z.pow_0_r, Z.mul_1_r in Hlt.
        assert (2 ^ (- E) <= 2 ^ (- (k + 1)) * 2 ^ 52).
        { rewrite <- pow2_add by lia. apply pow2_le. lia. }
        nia.
  - (* in the binade of the threshold *)
    assert (He : e = E) by lia. rewrite He.
    destruct (Z.leb_spec 0 E) as [H0|H0]; [lia|].
    rewrite (Z.max_l (- E) 0), (Z.max_r E 0) by lia.
    rewrite Z.pow_0_r, Z.mul_1_r.
    rewrite Qred_correct. unfold Qlt. cbn [Qnum Qden].
    rewrite !to_pos_pow2 by lia.
    rewrite HP.
    pose proof (nearestEven_gt_iff (n * 2 ^ (- E)) d M Hd Heven) as Hiff.
    split.
    + intros H. apply Z.mul_lt_mono_pos_r in H; [|exact HPE].
      apply Hiff in H. lia.
    + intros H. apply Z.mul_lt_mono_pos_r; [exact HPE|].
      apply Hiff. lia.
  - (* above the binade of the threshold: both sides hold *)
    assert (He : e = k - 52) by lia.
    assert (Hm : 2 ^ 52 <= JS.nearestEven (n * 2 ^ Z.max (- e) 0)
                                           (d * 2 ^ Z.max e 0)).
    { pose proof (pow2_pos (Z.max e 0) ltac:(lia)).
      apply nearestEven_ge; [nia|].
      unfold pow2_le_frac in Hge.
      destruct (Z.le_gt_cases 0 e) as [He0|He0].
      - rewrite (Z.max_r (- e) 0), (Z.max_l e 0) by lia.
        rewrite (Z.max_r (- k) 0), (Z.max_l k 0) in Hge by lia.
        rewrite Z.pow_0_r, Z.mul_1_r in *.
        replace k with (52 + e) in Hge by lia.
        rewrite pow2_add in Hge by lia. nia.
      - rewrite (Z.max_l (- e) 0), (Z.max_r e 0) by lia.
        rewrite Z.pow_0_r, Z.mul_1_r.
        destruct (Z.le_gt_cases 0 k) as [Hk0|Hk0].
        + rewrite (Z.max_r (- k) 0), (Z.max_l k 0) in Hge by lia.
          rewrite Z.pow_0_r, Z.mul_1_r in Hge.
          assert (2 ^ 52 = 2 ^ k * 2 ^ (- e)).
          { rewrite <- pow2_add by lia. f_equal. lia. }
          pose proof (pow2_pos (- e) ltac:(lia)). nia.
        + rewrite (Z.max_l (- k) 0), (Z.max_r k 0) in Hge by lia.
          rewrite Z.pow_0_r, Z.mul_1_r in Hge.
          assert (2 ^ (- e) = 2 ^ 52 * 2 ^ (- k)).
          { rewrite <- pow2_add by lia. f_equal. lia. }
          nia. }
    set (m := JS.nearestEven _ _) in *.
    split.
    + intros _. rewrite HP.
      unfold pow2_le_frac in Hge.
      destruct (Z.le_gt_cases 0 k) as [Hk0|Hk0].
      * rewrite (Z.max_r (- k) 0), (Z.max_l k 0) in Hge by lia.
        rewrite Z.pow_0_r, Z.mul_1_r in Hge.
        assert (2 ^ 54 <= 2 ^ k * (2 * 2 ^ (- E))).
        { replace (2 * 2 ^ (- E)) with (2 ^ (1 + - E))
            by (now rewrite pow2_add by lia).
          rewrite <- pow2_add by lia. apply pow2_le. lia. }
        change (2 ^ 53) with 9007199254740992 in HM.
        change (2 ^ 54) with 18014398509481984 in *. nia.
      * rewrite (Z.max_l (- k) 0), (Z.max_r k 0) in Hge by lia.
        rewrite Z.pow_0_r, Z.mul_1_r in Hge.
        assert (2 ^ 54 * 2 ^ (- k) <= 2 * 2 ^ (- E)).
        { replace (2 * 2 ^ (- E)) with (2 ^ (1 + - E))
            by (now rewrite pow2_add by lia).
          rewrite <- pow2_add by lia. apply pow2_le. lia. }
        pose proof (pow2_pos (- k) ltac:(lia)).
        change (2 ^ 53) with 9007199254740992 in HM.
        change (2 ^ 54) with 18014398509481984 in *. nia.
    + intros _.
      destruct (Z.leb_spec 0 e) as [H0|H0].
      * destruct (2 ^ 1024 <=? m * 2 ^ e); [exact I|].
        unfold Qlt, inject_Z. cbn [Qnum Qden].
        rewrite to_pos_pow2 by lia.
        pose proof (pow2_pos e H0).
        assert (2 <= 2 ^ (- E)).
        { change 2 with (2 ^ 1) at 1. apply pow2_le. lia. }
        change (2 ^ 53) with 9007199254740992 in HM.
        change (2 ^ 52) with 4503599627370496 in *. nia.
      * rewrite Qred_correct. unfold Qlt. cbn [Qnum Qden].
        rewrite !to_pos_pow2 by lia.
        assert (2 * 2 ^ (- e) <= 2 ^ (- E)).
        { replace (2 * 2 ^ (- e)) with (2 ^ (1 + - e))
            by (now rewrite pow2_add by lia).
          apply pow2_le. lia. }
        pose proof (pow2_pos (- e) ltac:(lia)).
        change (2 ^ 53) with 9007199254740992 in HM.
        change (2 ^ 52) with 4503599627370496 in *. nia.
Qed.

Lemma roundPositive_nonneg (n d : Z) (r : Q) :
  0 < n -> 0 < d -> JS.roundPositive n d = Some r -> (0 <= r)%Q.
Proof.
  intros Hn Hd. unfold JS.roundPositive. rewrite scale_spec.
  set (e := Z.max (JS.ilog2 n d - 52) (- 1074)).
  pose proof (pow2_pos (Z.max e 0) ltac:(lia)) as H1.
  pose proof (pow2_pos (Z.max (- e) 0) ltac:(lia)) as H2.
  assert (Hm : 0 <= JS.nearestEven (n * 2 ^ Z.max (- e) 0) (d * 2 ^ Z.max e 0))
    by (apply nearestEven_ge; nia).
  set (m := JS.nearestEven _ _) in *.
  destruct (0 <=? e) eqn:He.
  - destruct (2 ^ 1024 <=? m * 2 ^ e); [discriminate|].
    intros [= <-]. apply Z.leb_le in He. pose proof (pow2_pos e He).
    unfold Qle, inject_Z. cbn [Qnum Qden]. nia.
  - intros H.
    replace r with (Qred (m # Z.to_pos (2 ^ (- e)))) by congruence.
    rewrite Qred_correct. unfold Qle. cbn [Qnum Qden]. lia.
Qed.

Lemma nearestEven_1 (N : Z) : JS.nearestEven N 1 = N.
Proof.
  rewrite <- (Z.mul_1_r N) at 1. apply nearestEven_exact. lia.
Qed.

(** A whole number up to 2^53 is a binary64 value. *)
Lemma roundPositive_whole (p : Z) :
  0 < p <= 2 ^ 53 -> JS.roundPositive p 1 = Some (inject_Z p).
Proof.
  intros Hp.
  pose proof (Z.log2_spec p ltac:(lia)) as [Ha1 Ha2].
  pose proof (Z.log2_nonneg p) as Ha.
  assert (Hk : JS.ilog2 p 1 = Z.log2 p).
  { unfold JS.ilog2. change (Z.log2 1) with 0. rewrite Z.sub_0_r, scale_spec.
    rewrite (Z.max_r (- Z.log2 p) 0), (Z.max_l (Z.log2 p) 0) by lia.
    rewrite Z.pow_0_r, Z.mul_1_r, Z.mul_1_l.
    destruct (Z.leb_spec (2 ^ Z.log2 p) p); [reflexivity | lia]. }
  assert (Ha53 : Z.log2 p <= 53).
  { destruct (Z.le_gt_cases (Z.log2 p) 53) as [H|H]; [exact H|].
    pose proof (pow2_le 54 (Z.log2 p) ltac:(lia)).
    change (2 ^ 54) with 18014398509481984 in *.
    change (2 ^ 53) with 9007199254740992 in *. lia. }
  unfold JS.roundPositive. rewrite Hk, scale_spec.
  set (a := Z.log2 p) in *.
  rewrite (Z.max_l (a - 52) (- 1074)) by lia.
  destruct (Z.leb_spec 0 (a - 52)) as [H0|H0].
  - rewrite (Z.max_r (- (a - 52)) 0), (Z.max_l (a - 52) 0) by lia.
    rewrite Z.pow_0_r, Z.mul_1_r, Z.mul_1_l.
    assert (Ha' : a = 52 \/ a = 53) by lia.
    destruct Ha' as [E|E]; rewrite E in *.
    + change (2 ^ (52 - 52)) with 1.
      rewrite nearestEven_1, Z.mul_1_r.
      destruct (Z.leb_spec (2 ^ 1024) p) as [H|H]; [|reflexivity].
      exfalso. apply (Z.lt_irrefl (2 ^ 53)).
      apply Z.lt_le_trans with (2 ^ 1024); [reflexivity | lia].
    + assert (Ep : p = 2 ^ 53) by lia. subst p.
      vm_compute. reflexivity.
  - rewrite (Z.max_l (- (a - 52)) 0), (Z.max_r (a - 52) 0) by lia.
    rewrite Z.pow_0_r, Z.mul_1_r.
    rewrite nearestEven_1.
    f_equal. rewrite <- (Qred_inject_Z p). apply Qred_complete.
    unfold Qeq, inject_Z. cbn [Qnum Qden].
    rewrite to_pos_pow2 by lia. lia.
Qed.

Lemma round64_whole (z : Z) :
  Z.abs z <= 2 ^ 53 -> JS.round64 (inject_Z z) = JS.Finite (inject_Z z).
Proof.
  intros Hz. unfold JS.round64, inject_Z. cbn [Qnum Qden].
  destruct z as [|p|p].
  - reflexivity.
  - rewrite roundPositive_whole by lia. reflexivity.
  - rewrite roundPositive_whole by lia. reflexivity.
Qed.

Lemma add_whole (a b : Z) :
  Z.abs (a + b) <= 2 ^ 53 ->
  JS.add (JS.Finite (inject_Z a)) (JS.Finite (inject_Z b)) =
  JS.Finite (inject_Z (a + b)).
Proof.
  intros H. cbn [JS.add].
  replace (inject_Z a + inject_Z b)%Q with (inject_Z (a + b)).
  - now apply round64_whole.
  - unfold Qplus, inject_Z. cbn [Qnum Qden Pos.mul]. now rewrite !Z.mul_1_r.
Qed.

Lemma sumAbs_nonneg (zs : list Z) : 0 <= sumAbs zs.
Proof. induction zs as [|z zs IH]; simpl; lia. Qed.

(** Whole numbers whose absolute values add up to at most 2^53 are added
    without rounding. *)
Lemma sumFrom_whole (zs : list Z) : forall a,
  Z.abs a + sumAbs zs <= 2 ^ 53 ->
  sumFrom (JS.Finite (inject_Z a)) (map inject_Z zs) =
  JS.Finite (inject_Z (a + Zsum zs)).
Proof.
  induction zs as [|z zs IH]; intros a H; cbn [map sumFrom Zsum fold_right].
  - now rewrite Z.add_0_r.
  - cbn [sumAbs fold_right] in H. fold (sumAbs zs) in H.
    pose proof (sumAbs_nonneg zs).
    rewrite add_whole by lia. fold (Zsum zs).
    rewrite IH by lia. f_equal. f_equal. lia.
Qed.

Lemma div_fraction (s : Z) (p : positive) :
  JS.div (JS.Finite (inject_Z s)) (JS.Finite (inject_Z (Z.pos p))) =
  JS.round64 (s # p).
Proof.
  cbn [JS.div].
  replace (Qeq_bool (inject_Z (Z.pos p)) 0) with false by reflexivity.
  unfold Qdiv, Qmult, Qinv, inject_Z. cbn [Qnum Qden Pos.mul].
  now rewrite Z.mul_1_r.
Qed.

(** The rounded quotient of an integer by a positive integer below 2^37
    exceeds 100,000 exactly when the quotient does. *)
Lemma round64_exceeds_100000 (s : Z) (p : positive) :
  Z.pos p < 2 ^ 37 ->
  (exceeds (JS.round64 (s # p)) (inject_Z 100000) <-> 100000 * Z.pos p < s).
Proof.
  intros Hp. change (2 ^ 37) with 137438953472 in Hp.
  assert (Hc : (inject_Z 100000 == 6871947673600000 # Z.to_pos (2 ^ (- -36)))%Q)
    by reflexivity.
  unfold JS.round64. cbn [Qnum Qden].
  destruct s as [|n|n].
  - cbn [exceeds]. split; [intros H; discriminate H | lia].
  - pose proof (roundPositive_exceeds (Z.pos n) (Z.pos p) 6871947673600000 (-36)
                  ltac:(lia) ltac:(lia) ltac:(lia)
                  ltac:(split; [discriminate | reflexivity]) eq_refl) as H.
    change (2 ^ (1 - -36)) with 137438953472 in H.
    destruct (JS.roundPositive (Z.pos n) (Z.pos p)) as [r|]; cbn [exceeds].
    + rewrite Hc, H. lia.
    + rewrite H. lia.
  - split; [|lia]. intros H. exfalso.
    destruct (JS.roundPositive (Z.pos n) (Z.pos p)) as [r|] eqn:E;
      cbn [exceeds] in H; [|exact H].
    apply roundPositive_nonneg in E; [|lia|lia].
    assert (0 < - r)%Q
      by (apply Qlt_trans with (inject_Z 100000); [reflexivity | exact H]).
    lra.
Qed.

Lemma roundedMean_whole (zs : list Z) :
  sumAbs zs <= 2 ^ 53 ->
  roundedMean (map inject_Z zs) =
  match zs with
  | [] => JS.NaN
  | _ :: _ => JS.round64 (Zsum zs # Pos.of_nat (length zs))
  end.
Proof.
  destruct zs as [|z zs]; [reflexivity|]. intros H.
  cbn [sumAbs fold_right] in H. fold (sumAbs zs) in H.
  unfold roundedMean. cbn [map length]. rewrite sumFrom_whole by lia.
  rewrite length_map.
  replace (Z.of_nat (S (length zs)))
    with (Z.pos (Pos.of_nat (S (length zs)))).
  - apply div_fraction.
  - rewrite <- Pos.of_nat_succ. lia.
Qed.

Lemma Qsum_inject_Z (zs : list Z) :
  (Qsum (map inject_Z zs) == inject_Z (Zsum zs))%Q.
Proof.
  induction zs as [|z zs IH]; [reflexivity|].
  cbn [map Qsum fold_right Zsum]. fold (Qsum (map inject_Z zs)). fold (Zsum zs).
  now rewrite IH, inject_Z_plus.
Qed.

Lemma Zsum_Permutation (zs zs' : list Z) :
  Permutation zs zs' -> Zsum zs = Zsum zs'.
Proof. induction 1; simpl; lia. Qed.

Lemma sumAbs_Permutation (zs zs' : list Z) :
  Permutation zs zs' -> sumAbs zs = sumAbs zs'.
Proof. induction 1; simpl; lia. Qed.

(** Whole balances can be taken in any order. *)
Lemma roundedMean_whole_Permutation (zs : list Z) (txs txs' : list Transaction) :
  wholeBalances zs txs -> Permutation txs txs' ->
  roundedMean (map balance txs) = roundedMean (map balance txs').
Proof.
  intros [Hb Hs] Hp.
  pose proof (Permutation_map balance Hp) as Hpb. rewrite Hb in Hpb.
  apply Permutation_sym, Permutation_map_inv in Hpb.
  destruct Hpb as [zs' [Hb' Hpz]].
  assert (Hs' : sumAbs zs' <= 2 ^ 53)
    by now rewrite <- (sumAbs_Permutation _ _ Hpz).
  rewrite Hb, Hb', (roundedMean_whole zs Hs), (roundedMean_whole zs' Hs').
  rewrite <- (Zsum_Permutation _ _ Hpz), <- (Permutation_length Hpz).
  destruct zs as [|z zs]; destruct zs' as [|z' zs']; try reflexivity.
  - apply Permutation_length in Hpz. discriminate Hpz.
  - apply Permutation_length in Hpz. discriminate Hpz.
Qed.

(** The quotient of two lengths below 2^32, rounded, exceeds the rounded
    0.7 exactly when the fraction exceeds 7/10: [JS.div_length] decides the
    comparison of the program as it is decided on binary64 values. *)
Lemma div_length_rounded (n d : nat) :
  (n <= d)%nat -> Z.of_nat d < 2 ^ 32 ->
  JS.gt (JS.Num (JS.div (JS.Finite (inject_Z (Z.of_nat n)))
                        (JS.Finite (inject_Z (Z.of_nat d)))))
        (JS.Num (JS.round64 (7 # 10))) =
  JS.gt (JS.Num (JS.div_length n d)) (JS.Num (JS.Finite (7 # 10))).
Proof.
  intros Hle Hd. change (2 ^ 32) with 4294967296 in Hd.
  destruct d as [|d].
  - assert (n = O) by lia. subst n. reflexivity.
  - replace (Z.of_nat (S d)) with (Z.pos (Pos.of_succ_nat d)) by lia.
    rewrite div_fraction.
    change (JS.round64 (7 # 10))
      with (JS.Finite (3152519739159347 # 4503599627370496)).
    apply bool_eq_iff. rewrite !gt_exceeds.
    cbn [JS.div_length exceeds].
    replace (inject_Z (Z.of_nat n) / inject_Z (Z.of_nat (S d)))%Q
      with (Z.of_nat n # Pos.of_succ_nat d).
    2:{ replace (Z.of_nat (S d)) with (Z.pos (Pos.of_succ_nat d)) by lia.
        unfold Qdiv, Qmult, Qinv, inject_Z. cbn [Qnum Qden Pos.mul].
        now rewrite Z.mul_1_r. }
    assert (Hc : (3152519739159347 # 4503599627370496
                  == 6305039478318694 # Z.to_pos (2 ^ (- -53)))%Q)
      by reflexivity.
    unfold JS.round64. cbn [Qnum Qden].
    assert (Hd' : Z.pos (Pos.of_succ_nat d) < 4294967296) by lia.
    assert (Hn' : Z.of_nat n <= Z.pos (Pos.of_succ_nat d)) by lia.
    destruct (Z.of_nat n) as [|p|p] eqn:En.
    + cbn [exceeds]. unfold Qlt. cbn [Qnum Qden]. split; intros H; lia.
    + pose proof (roundPositive_exceeds (Z.pos p) (Z.pos (Pos.of_succ_nat d))
                    6305039478318694 (-53)
                    ltac:(lia) ltac:(lia) ltac:(lia)
                    ltac:(split; [discriminate | reflexivity]) eq_refl) as H.
      change (2 ^ (1 - -53)) with 18014398509481984 in H.
      assert (Hq : (7 # 10 < Z.pos p # Pos.of_succ_nat d)%Q <->
                   7 * Z.pos (Pos.of_succ_nat d) < 10 * Z.pos p).
      { unfold Qlt. cbn [Qnum Qden]. lia. }
      rewrite Hq.
      destruct (JS.roundPositive (Z.pos p) (Z.pos (Pos.of_succ_nat d)))
        as [r|]; cbn [exceeds].
      * rewrite Hc, H. lia.
      * rewrite H. lia.
    + lia.
Qed.

(** ** The analyses *)

Lemma amountKey_eq (t t' : Transaction) :
  amountKey t = amountKey t' <-> (amount t == amount t')%Q.
Proof.
  unfold amountKey, Key.of_number. split.
  - intros H. rewrite <- (Qred_correct (amount t)), <- (Qred_correct (amount t')).
    now rewrite H.
  - apply Qred_complete.
Qed.

Lemma In_credits txs t :
  In t (credits txs) <-> In t txs /\ type t = "Credit"%string.
Proof. unfold credits. now rewrite filter_In, String.eqb_eq. Qed.

Lemma In_debits txs t :
  In t (debits txs) <-> In t txs /\ type t = "Debit"%string.
Proof. unfold debits. now rewrite filter_In, String.eqb_eq. Qed.

Lemma HourFromTime_range (t : Z) : 0 <= Date.HourFromTime t < 24.
Proof. unfold Date.HourFromTime. apply Z.mod_pos_bound. lia. Qed.

(** ** The bucket key *)

(** For a date whose UTC year has four digits the key is the text
    [YYYY-MM-DDTHH] of its UTC year, month, day and hour. *)
Lemma hourBucket_year_month_day_hour (t : Transaction) (y m d : Z) :
  Date.civil (Date.Day (date t)) = (y, m, d) ->
  0 <= y <= 9999 ->
  hourBucket t =
    (Date.pad4 y ++ "-" ++ Date.pad2 m ++ "-" ++ Date.pad2 d ++ "T"
       ++ Date.pad2 (Date.HourFromTime (date t)))%string.
Proof.
  intros Hc Hy. unfold hourBucket, Date.toISOString. rewrite Hc.
  unfold Date.isoYear.
  replace ((0 <=? y) && (y <=? 9999))%bool with true
    by (symmetry; apply andb_true_iff; split; apply Z.leb_le; lia).
  reflexivity.
Qed.

(** For a date whose UTC year is negative or has more than four digits the
    key is the sign, six digits of the year, the month and the day: it
    stops before the hour, and two dates of one UTC day have one key. *)
Lemma hourBucket_signed_year (t : Transaction) (y m d : Z) :
  Date.civil (Date.Day (date t)) = (y, m, d) ->
  ~ 0 <= y <= 9999 ->
  hourBucket t =
    ((if (y <? 0)%Z then "-" ++ Date.pad6 (- y)%Z else "+" ++ Date.pad6 y)
       ++ "-" ++ Date.pad2 m ++ "-" ++ Date.pad2 d)%string.
Proof.
  intros Hc Hy. unfold hourBucket, Date.toISOString. rewrite Hc.
  unfold Date.isoYear.
  replace ((0 <=? y) && (y <=? 9999))%bool with false.
  - destruct (y <? 0); reflexivity.
  - symmetry. apply andb_false_iff.
    destruct (Z.leb_spec 0 y); [right; apply Z.leb_gt; lia | now left].
Qed.

Lemma hourBucket_same_day (t t' : Transaction) :
  ~ fourDigitYear (date t) ->
  Date.Day (date t) = Date.Day (date t') ->
  hourBucket t = hourBucket t'.
Proof.
  unfold fourDigitYear. intros Hy Hd.
  destruct (Date.civil (Date.Day (date t))) as [[y m] d] eqn:Hc.
  cbn [fst] in Hy.
  rewrite (hourBucket_signed_year t y m d Hc Hy).
  symmetry. apply hourBucket_signed_year; [now rewrite <- Hd | exact Hy].
Qed.

Lemma hourBucket_bucketText (t : Transaction) :
  hourBucket t =
  let '(y, m, d) := Date.civil (Date.Day (date t)) in
  bucketText y m d (Date.HourFromTime (date t)).
Proof.
  unfold hourBucket, bucketText, Date.toISOString.
  destruct (Date.civil (Date.Day (date t))) as [[y m] d].
  unfold Date.isoYear.
  destruct ((0 <=? y) && (y <=? 9999))%bool; [reflexivity|].
  destruct (y <? 0); reflexivity.
Qed.

Lemma Day_hourIndex (t : Z) : Date.Day t = hourIndex t / 24.
Proof.
  unfold Date.Day, hourIndex, Date.msPerDay, Date.msPerHour.
  rewrite Z.div_div by lia. reflexivity.
Qed.

(** Two transactions of one UTC clock hour have one bucket key. *)
Lemma hourBucket_of_hourIndex (t t' : Transaction) :
  hourIndex (date t) = hourIndex (date t') -> hourBucket t = hourBucket t'.
Proof.
  intros H. rewrite !hourBucket_bucketText, !Day_hourIndex.
  unfold Date.HourFromTime. fold (hourIndex (date t)) (hourIndex (date t')).
  now rewrite H.
Qed.

Lemma all_from_spec (p : Z -> bool) (n : nat) : forall i,
  all_from n i p = true ->
  forall j, i <= j < i + Z.of_nat n -> p j = true.
Proof.
  induction n as [|n IH]; intros i H j Hj.
  - simpl in Hj. lia.
  - cbn [all_from] in H. apply andb_true_iff in H. destruct H as [Hi Hrest].
    destruct (Z.eq_dec j i) as [->|Hne]; [exact Hi|].
    apply (IH (i + 1) Hrest). lia.
Qed.

Lemma doe_ok_era : all_from (Z.to_nat 146097) 0 doe_ok = true.
Proof. vm_compute. reflexivity. Qed.

Lemma civil_doe_spec (doe : Z) :
  0 <= doe < 146097 ->
  let '(yoe, m, d) := civil_doe doe in
  0 <= yoe <= 399 /\ 1 <= m <= 12 /\ 1 <= d <= 31 /\ doe_of yoe m d = doe.
Proof.
  intros H.
  assert (Hok : doe_ok doe = true).
  { apply (all_from_spec doe_ok _ 0 doe_ok_era). rewrite Z2Nat.id; lia. }
  unfold doe_ok in Hok. destruct (civil_doe doe) as [[yoe m] d].
  rewrite !andb_true_iff, !Z.leb_le, Z.eqb_eq in Hok. lia.
Qed.

Lemma civil_era (z : Z) :
  Date.civil z =
  let era := (z + 719468) / 146097 in
  let '(yoe, m, d) := civil_doe (z + 719468 - era * 146097) in
  (yoe + era * 400 + (if m <=? 2 then 1 else 0), m, d).
Proof. reflexivity. Qed.

Lemma civil_range (z y m d : Z) :
  Date.civil z = (y, m, d) -> 1 <= m <= 12 /\ 1 <= d <= 31.
Proof.
  rewrite civil_era. cbv zeta.
  set (era := (z + 719468) / 146097).
  assert (Hdoe : 0 <= z + 719468 - era * 146097 < 146097).
  { unfold era. pose proof (Z.mod_pos_bound (z + 719468) 146097 eq_refl).
    rewrite Z.mod_eq in H by lia. lia. }
  pose proof (civil_doe_spec _ Hdoe) as Hs.
  destruct (civil_doe (z + 719468 - era * 146097)) as [[yoe m0] d0].
  intros [= _ <- <-]. tauto.
Qed.

Lemma civil_inj (z z' : Z) : Date.civil z = Date.civil z' -> z = z'.
Proof.
  rewrite !civil_era. cbv zeta.
  set (era := (z + 719468) / 146097). set (era' := (z' + 719468) / 146097).
  assert (Hdoe : 0 <= z + 719468 - era * 146097 < 146097).
  { unfold era. pose proof (Z.mod_pos_bound (z + 719468) 146097 eq_refl).
    rewrite Z.mod_eq in H by lia. lia. }
  assert (Hdoe' : 0 <= z' + 719468 - era' * 146097 < 146097).
  { unfold era'. pose proof (Z.mod_pos_bound (z' + 719468) 146097 eq_refl).
    rewrite Z.mod_eq in H by lia. lia. }
  pose proof (civil_doe_spec _ Hdoe) as Hs.
  pose proof (civil_doe_spec _ Hdoe') as Hs'.
  destruct (civil_doe (z + 719468 - era * 146097)) as [[yoe m] d].
  destruct (civil_doe (z' + 719468 - era' * 146097)) as [[yoe' m'] d'].
  intros [= Hy <- <-].
  assert (yoe = yoe' /\ era = era') as [<- He] by lia.
  destruct Hs as (_ & _ & _ & E), Hs' as (_ & _ & _ & E').
  rewrite E in E'. lia.
Qed.

Lemma String_inj (c c' : ascii) (s s' : string) :
  String c s = String c' s' -> c = c' /\ s = s'.
Proof. intros H. now inversion H. Qed.

Lemma digitChar_inj (a b : Z) :
  Date.digitChar a = Date.digitChar b -> a mod 10 = b mod 10.
Proof.
  unfold Date.digitChar. intros H.
  pose proof (Z.mod_pos_bound a 10 eq_refl) as Ha.
  pose proof (Z.mod_pos_bound b 10 eq_refl) as Hb.
  apply (f_equal nat_of_ascii) in H.
  rewrite !nat_ascii_embedding in H by lia. lia.
Qed.

Lemma pad2_chars (n : Z) :
  Date.pad2 n =
  String (Date.digitChar (n / 10)) (String (Date.digitChar n) EmptyString).
Proof. reflexivity. Qed.

Lemma pad2_append_inj (a b : Z) (s s' : string) :
  0 <= a < 100 -> 0 <= b < 100 ->
  (Date.pad2 a ++ s = Date.pad2 b ++ s')%string -> a = b /\ s = s'.
Proof.
  intros Ha Hb. rewrite !pad2_chars. cbn [append]. intros H.
  apply String_inj in H. destruct H as [H1 H].
  apply String_inj in H. destruct H as [H0 H].
  split; [|exact H].
  apply digitChar_inj in H1, H0.
  Z.to_euclidean_division_equations. lia.
Qed.

Lemma pad2_inj (a b : Z) :
  0 <= a < 100 -> 0 <= b < 100 -> Date.pad2 a = Date.pad2 b -> a = b.
Proof.
  intros Ha Hb H.
  apply (pad2_append_inj a b EmptyString EmptyString Ha Hb).
  rewrite !pad2_chars in *. cbn [append]. exact H.
Qed.

Lemma pad2_mod (n : Z) : Date.pad2 n = Date.pad2 (n mod 100).
Proof.
  rewrite !pad2_chars. unfold Date.digitChar.
  replace ((n mod 100) mod 10) with (n mod 10)
    by (Z.to_euclidean_division_equations; lia).
  replace ((n mod 100 / 10) mod 10) with ((n / 10) mod 10)
    by (Z.to_euclidean_division_equations; lia).
  reflexivity.
Qed.

Lemma pad2_append_assoc (n : Z) (s1 s2 : string) :
  ((Date.pad2 n ++ s1) ++ s2 = Date.pad2 n ++ (s1 ++ s2))%string.
Proof. rewrite pad2_chars. reflexivity. Qed.

Lemma pad4_append_inj (a b : Z) (s s' : string) :
  0 <= a <= 9999 -> 0 <= b <= 9999 ->
  (Date.pad4 a ++ s = Date.pad4 b ++ s')%string -> a = b /\ s = s'.
Proof.
  intros Ha Hb. unfold Date.pad4.
  rewrite (pad2_mod a), (pad2_mod b).
  rewrite !pad2_append_assoc. intros H.
  apply pad2_append_inj in H; [|Z.to_euclidean_division_equations; lia ..].
  destruct H as [Hhi H].
  apply pad2_append_inj in H; [|apply Z.mod_pos_bound; lia ..].
  destruct H as [Hlo H]. split; [|exact H].
  Z.to_euclidean_division_equations. lia.
Qed.

Lemma separator_inj (c : ascii) (s s' : string) :
  String c s = String c s' -> s = s'.
Proof. intros H. now apply String_inj in H. Qed.

(** For dates whose UTC year has four digits, two transactions have one
    bucket key exactly when they fall in one UTC clock hour. *)
Lemma hourBucket_eq_iff (t t' : Transaction) :
  fourDigitYear (date t) ->
  fourDigitYear (date t') ->
  (hourBucket t = hourBucket t' <-> hourIndex (date t) = hourIndex (date t')).
Proof.
  unfold fourDigitYear.
  intros Hy Hy'. split; [|apply hourBucket_of_hourIndex].
  destruct (Date.civil (Date.Day (date t))) as [[y m] d] eqn:E.
  destruct (Date.civil (Date.Day (date t'))) as [[y' m'] d'] eqn:E'.
  cbn [fst] in Hy, Hy'.
  rewrite (hourBucket_year_month_day_hour t y m d E Hy).
  rewrite (hourBucket_year_month_day_hour t' y' m' d' E' Hy').
  destruct (civil_range _ _ _ _ E) as [Hm Hd].
  destruct (civil_range _ _ _ _ E') as [Hm' Hd'].
  pose proof (HourFromTime_range (date t)) as Hh.
  pose proof (HourFromTime_range (date t')) as Hh'.
  intros H.
  apply pad4_append_inj in H; [|lia ..]. destruct H as [Ey H].
  apply separator_inj in H.
  apply pad2_append_inj in H; [|lia ..]. destruct H as [Em H].
  apply separator_inj in H.
  apply pad2_append_inj in H; [|lia ..]. destruct H as [Ed H].
  apply separator_inj in H.
  apply pad2_inj in H; [|lia ..]. rename H into Eh.
  subst y' m' d'. rewrite <- E' in E. apply civil_inj in E.
  rewrite !Day_hourIndex in E. unfold Date.HourFromTime in Eh.
  fold (hourIndex (date t)) (hourIndex (date t')) in Eh.
  Z.to_euclidean_division_equations. lia.
Qed.

Lemma hourBucketMembers_sameClockHour (t : Transaction) (txs : list Transaction) :
  fourDigitYear (date t) ->
  (forall t', In t' txs -> fourDigitYear (date t')) ->
  hourBucketMembers (hourBucket t) txs = sameClockHour t txs.
Proof.
  intros Ht Hall. unfold hourBucketMembers, bucket, sameClockHour.
  apply filter_ext_in. intros t' Ht'.
  destruct (string_dec (hourBucket t') (hourBucket t)) as [E|E];
    destruct (hourIndex (date t') =? hourIndex (date t)) eqn:B;
    try reflexivity.
  - apply hourBucket_eq_iff in E; [|now apply Hall | exact Ht].
    apply Z.eqb_neq in B. contradiction.
  - apply Z.eqb_eq in B. elim E. now apply hourBucket_of_hourIndex.
Qed.

Lemma clockHour_sameClockHour (t : Transaction) (txs : list Transaction) :
  clockHour (hourIndex (date t)) txs = sameClockHour t txs.
Proof. reflexivity. Qed.

Lemma In_clockHour (h : Z) (txs : list Transaction) (t : Transaction) :
  In t (clockHour h txs) <-> In t txs /\ hourIndex (date t) = h.
Proof. unfold clockHour. now rewrite filter_In, Z.eqb_eq. Qed.


Section Analyses.

Variable LocalTZA : Z -> Z.

Lemma regularIncome_results txs :
  regularIncome (patterns (results LocalTZA txs)) =
  Lodash.filter (fun group => 3 <=? Z.of_nat (length group))
                (groupByAmount (credits txs)).
Proof. reflexivity. Qed.

Lemma recurringExpenses_results txs :
  recurringExpenses (patterns (results LocalTZA txs)) =
  Lodash.filter (fun group => 2 <=? Z.of_nat (length group))
                (groupByAmount (debits txs)).
Proof. reflexivity. Qed.

Lemma highVelocity_results txs :
  highVelocity (fraudIndicators (results LocalTZA txs)) =
  Lodash.filter (fun group => 5 <? Z.of_nat (length group)) (groupByHour txs).
Proof. reflexivity. Qed.

Lemma unusualTiming_results txs :
  unusualTiming (fraudIndicators (results LocalTZA txs)) =
  List.filter (isUnusualTime LocalTZA (constructor txs)) txs.
Proof. reflexivity. Qed.

Lemma In_regularIncome txs g :
  In g (regularIncome (patterns (results LocalTZA txs))) <->
  exists k, g = amountMembers k (credits txs) /\ (3 <= length g)%nat.
Proof.
  rewrite regularIncome_results. unfold groupByAmount.
  rewrite In_filter_groupBy. fold amountMembers.
  split; intros [k H]; exists k.
  - destruct H as [Hg [_ Hp]]. split; [exact Hg | lia].
  - destruct H as [Hg Hp]. repeat split; [exact Hg | | lia].
    intros ->. simpl in Hp. lia.
Qed.

Lemma In_recurringExpenses txs g :
  In g (recurringExpenses (patterns (results LocalTZA txs))) <->
  exists k, g = amountMembers k (debits txs) /\ (2 <= length g)%nat.
Proof.
  rewrite recurringExpenses_results. unfold groupByAmount.
  rewrite In_filter_groupBy. fold amountMembers.
  split; intros [k H]; exists k.
  - destruct H as [Hg [_ Hp]]. split; [exact Hg | lia].
  - destruct H as [Hg Hp]. repeat split; [exact Hg | | lia].
    intros ->. simpl in Hp. lia.
Qed.

Lemma In_highVelocity txs g :
  In g (highVelocity (fraudIndicators (results LocalTZA txs))) <->
  exists k, g = hourBucketMembers k txs /\ (5 < length g)%nat.
Proof.
  rewrite highVelocity_results. unfold groupByHour.
  rewrite In_filter_groupBy. fold hourBucketMembers.
  split; intros [k H]; exists k.
  - destruct H as [Hg [_ Hp]]. split; [exact Hg | lia].
  - destruct H as [Hg Hp]. repeat split; [exact Hg | | lia].
    intros ->. simpl in Hp. lia.
Qed.

(** C1: every group of [regularIncome] holds at least 3 transactions, all
    of type Credit and all of one amount; every group of
    [recurringExpenses] holds at least 2 transactions, all of type Debit
    and all of one amount. So no group below its threshold is reported. *)
Theorem C1_pattern_groups (txs : list Transaction) :
  (forall g, In g (regularIncome (patterns (results LocalTZA txs))) ->
     (3 <= length g)%nat /\
     (forall t, In t g -> type t = "Credit"%string) /\
     (forall t t', In t g -> In t' g -> (amount t == amount t')%Q)) /\
  (forall g, In g (recurringExpenses (patterns (results LocalTZA txs))) ->
     (2 <= length g)%nat /\
     (forall t, In t g -> type t = "Debit"%string) /\
     (forall t t', In t g -> In t' g -> (amount t == amount t')%Q)).
Proof.
  split; intros g Hg.
  - apply In_regularIncome in Hg. destruct Hg as [k [-> Hlen]].
    split; [exact Hlen|]. unfold amountMembers. split.
    + intros t Ht. apply In_bucket in Ht. destruct Ht as [Ht _].
      now apply In_credits in Ht.
    + intros t t' Ht Ht'. apply In_bucket in Ht, Ht'.
      apply amountKey_eq. destruct Ht as [_ ->]. now destruct Ht' as [_ ->].
  - apply In_recurringExpenses in Hg. destruct Hg as [k [-> Hlen]].
    split; [exact Hlen|]. unfold amountMembers. split.
    + intros t Ht. apply In_bucket in Ht. destruct Ht as [Ht _].
      now apply In_debits in Ht.
    + intros t t' Ht Ht'. apply In_bucket in Ht, Ht'.
      apply amountKey_eq. destruct Ht as [_ ->]. now destruct Ht' as [_ ->].
Qed.

(** With four-digit years the reported groups are the clock hours of more
    than 5 transactions. *)
Lemma In_highVelocity_clockHour txs g :
  (forall t, In t txs -> fourDigitYear (date t)) ->
  (In g (highVelocity (fraudIndicators (results LocalTZA txs))) <->
   exists h, g = clockHour h txs /\ (5 < length g)%nat).
Proof.
  intros Hall. rewrite In_highVelocity. split.
  - intros [k [-> Hlen]].
    destruct (hourBucketMembers k txs) as [|t g'] eqn:E;
      [simpl in Hlen; lia|].
    assert (Ht : In t (hourBucketMembers k txs)) by (rewrite E; now left).
    apply In_bucket in Ht. destruct Ht as [Hin <-].
    exists (hourIndex (date t)). split; [|exact Hlen]. rewrite <- E.
    rewrite clockHour_sameClockHour.
    apply hourBucketMembers_sameClockHour; [now apply Hall | exact Hall].
  - intros [h [-> Hlen]].
    destruct (clockHour h txs) as [|t g'] eqn:E; [simpl in Hlen; lia|].
    assert (Ht : In t (clockHour h txs)) by (rewrite E; now left).
    apply In_clockHour in Ht. destruct Ht as [Hin <-].
    exists (hourBucket t). split; [|exact Hlen]. rewrite <- E.
    rewrite clockHour_sameClockHour. symmetry.
    apply hourBucketMembers_sameClockHour; [now apply Hall | exact Hall].
Qed.


Lemma In_unusualTiming txs t :
  In t (unusualTiming (fraudIndicators (results LocalTZA txs))) <->
  In t txs /\ In (Date.getHours LocalTZA (date t)) [23; 0; 1; 2; 3; 4].
Proof.
  rewrite unusualTiming_results, filter_In.
  unfold isUnusualTime. cbn [constructor fraudThresholds suspiciousTimeRange start end_].
  pose proof (HourFromTime_range (date t + LocalTZA (date t))) as Hr.
  unfold Date.getHours. set (h := Date.HourFromTime _) in *.
  rewrite orb_true_iff, !Z.leb_le. simpl.
  split; intros [Hin H]; (split; [exact Hin|]); lia.
Qed.

(** C4: a transaction is in [unusualTiming] exactly when it is in the
    input and its local hour is one of 23, 0, 1, 2, 3, 4; a transaction
    whose local hour is between 5 and 22 is never there. *)
Theorem C4_unusual_timing (txs : list Transaction) (t : Transaction) :
  (In t (unusualTiming (fraudIndicators (results LocalTZA txs))) <->
   In t txs /\ In (Date.getHours LocalTZA (date t)) [23; 0; 1; 2; 3; 4]) /\
  (5 <= Date.getHours LocalTZA (date t) <= 22 ->
   ~ In t (unusualTiming (fraudIndicators (results LocalTZA txs)))).
Proof.
  split; [apply In_unusualTiming|].
  intros H Hin. apply In_unusualTiming in Hin. destruct Hin as [_ Hin].
  simpl in Hin. lia.
Qed.

End Analyses.

Section Velocity.

Variable LocalTZA : Z -> Z.


End Velocity.


Lemma sixInOneHour_fourDigitYear (t : Transaction) :
  In t sixInOneHour -> fourDigitYear (date t).
Proof.
  intros Ht. unfold sixInOneHour in Ht. simpl in Ht.
  repeat (destruct Ht as [<-|Ht];
          [unfold fourDigitYear; vm_compute; split; discriminate|]).
  destruct Ht.
Qed.





Example burst_buckets :
  map hourBucket burst =
  ["2024-01-15T09"; "2024-01-15T09"; "2024-01-15T09"; "2024-01-15T09";
   "2024-01-15T10"; "2024-01-15T10"; "2024-01-15T10"; "2024-01-15T10"]%string.
Proof. reflexivity. Qed.

Example burst_span :
  length burst = 8%nat /\
  forall t t', In t burst -> In t' burst ->
               Z.abs (date t - date t') < Date.msPerHour.
Proof.
  split; [reflexivity|].
  intros t t' Ht Ht'. unfold burst in Ht, Ht'. simpl in Ht, Ht'.
  repeat (destruct Ht as [<-|Ht]; [|]);
    repeat (destruct Ht' as [<-|Ht']; [|]);
    try contradiction; vm_compute; reflexivity.
Qed.

Section EmptyInput.

Variable LocalTZA : Z -> Z.

(** C2: on the empty list every part of the result is empty; the digital
    ratio and the mean balance are [NaN], the greatest balance is
    [undefined], and each of the three comparisons is false. *)
Theorem C2_empty_input :
  analyze LocalTZA [] =
    ({| patterns := {| regularIncome := []; recurringExpenses := [] |};
        fraudIndicators := {| highVelocity := []; unusualTiming := [] |};
        opportunities := {| crossSell := []; upSell := [] |} |},
     constructor []) /\
  digitalTransactions (constructor []) = JS.NaN /\
  averageBalance (constructor []) = JS.NaN /\
  maxBalance (constructor []) = JS.undefined /\
  JS.gt (JS.Num (digitalTransactions (constructor [])))
        (JS.Num (JS.Finite (7 # 10))) = false /\
  JS.gt (JS.Num (averageBalance (constructor []))) (number_literal 100000)
    = false /\
  JS.gt (maxBalance (constructor [])) (number_literal 500000) = false.
Proof. repeat split. Qed.

End EmptyInput.

(** ** The opportunity rules *)

Lemma includes_In (xs : list string) (c : string) :
  includes xs c = true <-> In c xs.
Proof.
  unfold includes. rewrite existsb_exists. split.
  - intros [x [Hin E]]. apply String.eqb_eq in E. now subst.
  - intros H. exists c. split; [exact H | apply String.eqb_refl].
Qed.

Lemma digitalCount_code (txs : list Transaction) :
  length (List.filter (fun t => includes digitalChannels (channel t)) txs)
  = digitalCount txs.
Proof.
  unfold digitalCount. f_equal. apply filter_ext. intros t.
  destruct (in_dec string_dec (channel t) digitalChannels) as [H|H].
  - now apply includes_In.
  - destruct (includes digitalChannels (channel t)) eqn:E; [|reflexivity].
    apply includes_In in E. contradiction.
Qed.

Lemma digitalTransactions_gt (txs : list Transaction) :
  JS.gt (JS.Num (digitalTransactions (constructor txs)))
        (JS.Num (JS.Finite (7 # 10))) = true <-> DigitalAffinity txs.
Proof.
  unfold digitalTransactions. cbn [constructor transactions].
  rewrite div_length_gt by apply filter_length_le.
  rewrite digitalCount_code. unfold DigitalAffinity.
  split; intros [H1 H2]; (split; [|exact H2]).
  - intros ->. now apply H1.
  - intros E. apply H1. now destruct txs.
Qed.

Lemma averageBalance_gt (txs : list Transaction) :
  JS.gt (JS.Num (averageBalance (constructor txs))) (number_literal 100000)
  = true <-> RoundedBalanceHealth txs.
Proof.
  unfold averageBalance, number_literal. cbn [constructor transactions].
  apply mean_gt.
Qed.

Lemma maxBalance_gt (txs : list Transaction) :
  JS.gt (maxBalance (constructor txs)) (number_literal 500000) = true
  <-> PeakBalance txs.
Proof.
  unfold maxBalance, number_literal. cbn [constructor transactions].
  apply max_gt.
Qed.

Lemma opportunities_results (LocalTZA : Z -> Z) (txs : list Transaction) :
  opportunities (results LocalTZA txs) =
  fst (analyzeBusinessOpportunities (constructor txs)).
Proof. reflexivity. Qed.

Lemma Qlt_div_iff (a b c : Q) :
  (0 < c)%Q -> ((a < b / c)%Q <-> (a * c < b)%Q).
Proof.
  intros Hc. split.
  - intros H. apply (Qmult_lt_compat_r _ _ c Hc) in H.
    assert (E : (b / c * c == b)%Q) by (field; intros E; rewrite E in Hc; now apply (Qlt_irrefl 0)).
    now rewrite E in H.
  - now apply Qlt_shift_div_l.
Qed.

Lemma inject_Z_length_pos {A : Type} (l : list A) :
  l <> [] -> (0 < inject_Z (Z.of_nat (length l)))%Q.
Proof.
  intros H. destruct l as [|x l]; [now elim H|].
  unfold Qlt. cbn [length]. simpl. lia.
Qed.

Lemma DigitalAffinity_iff (txs : list Transaction) :
  DigitalAffinity txs <-> (7 * length txs < 10 * digitalCount txs)%nat.
Proof.
  unfold DigitalAffinity. split.
  - intros [Hne H]. apply Qlt_div_iff in H; [|now apply inject_Z_length_pos].
    unfold Qlt, Qmult, inject_Z in H. cbn [Qnum Qden Pos.mul] in H. lia.
  - intros H. assert (Hne : txs <> []).
    { intros ->. unfold digitalCount in H. simpl in H. lia. }
    split; [exact Hne|].
    apply Qlt_div_iff; [now apply inject_Z_length_pos|].
    unfold Qlt, Qmult, inject_Z. cbn [Qnum Qden Pos.mul]. lia.
Qed.

Lemma BalanceHealth_iff (txs : list Transaction) :
  BalanceHealth txs <->
  txs <> [] /\
  (inject_Z (100000 * Z.of_nat (length txs)) < Qsum (map balance txs))%Q.
Proof.
  unfold BalanceHealth. split; intros [Hne H]; (split; [exact Hne|]).
  - apply Qlt_div_iff in H; [|now apply inject_Z_length_pos].
    now rewrite inject_Z_mult.
  - apply Qlt_div_iff; [now apply inject_Z_length_pos|].
    now rewrite <- inject_Z_mult.
Qed.

Lemma is_max_exists (x : Q) (l : list Q) : exists m, is_max m (x :: l).
Proof.
  destruct (baseExtremum_cons x l) as [m [_ H]]. now exists m.
Qed.

Lemma PeakBalance_iff (txs : list Transaction) :
  PeakBalance txs <->
  exists t, In t txs /\ (inject_Z 500000 < balance t)%Q.
Proof.
  unfold PeakBalance. split.
  - intros [m [[Hin _] Hlt]]. apply in_map_iff in Hin.
    destruct Hin as [t [<- Ht]]. now exists t.
  - intros [t [Ht Hlt]].
    destruct txs as [|t0 txs]; [destruct Ht|].
    destruct (is_max_exists (balance t0) (map balance txs)) as [m Hm].
    exists m. split; [exact Hm|].
    apply Qlt_le_trans with (balance t); [exact Hlt|].
    apply Hm. change (In (balance t) (map balance (t0 :: txs))).
    now apply in_map.
Qed.

Lemma crossSell_upSell_results (LocalTZA : Z -> Z) (txs : list Transaction) :
  crossSell (opportunities (results LocalTZA txs)) =
    (if JS.gt (JS.Num (digitalTransactions (constructor txs)))
              (JS.Num (JS.Finite (7 # 10)))
     then [premiumCreditCard] else []) ++
    (if JS.gt (JS.Num (averageBalance (constructor txs)))
              (number_literal 100000)
     then [mutualFundInvestment] else []) /\
  upSell (opportunities (results LocalTZA txs)) =
    (if JS.gt (maxBalance (constructor txs)) (number_literal 500000)
     then [premiumBankingAccount] else []).
Proof.
  rewrite opportunities_results. unfold analyzeBusinessOpportunities.
  destruct (JS.gt (JS.Num (digitalTransactions (constructor txs))) _),
           (JS.gt (JS.Num (averageBalance (constructor txs))) _),
           (JS.gt (maxBalance (constructor txs)) _);
    split; reflexivity.
Qed.

Lemma In_crossSell_card (LocalTZA : Z -> Z) (txs : list Transaction) :
  In premiumCreditCard (crossSell (opportunities (results LocalTZA txs))) <->
  DigitalAffinity txs.
Proof.
  destruct (crossSell_upSell_results LocalTZA txs) as [-> _].
  rewrite <- digitalTransactions_gt.
  destruct (JS.gt (JS.Num (digitalTransactions (constructor txs))) _),
           (JS.gt (JS.Num (averageBalance (constructor txs))) _);
    simpl; split; intros H; try reflexivity; try discriminate; auto;
    repeat (destruct H as [H|H]; try discriminate H); contradiction.
Qed.

Lemma In_crossSell_fund (LocalTZA : Z -> Z) (txs : list Transaction) :
  In mutualFundInvestment (crossSell (opportunities (results LocalTZA txs))) <->
  RoundedBalanceHealth txs.
Proof.
  destruct (crossSell_upSell_results LocalTZA txs) as [-> _].
  rewrite <- averageBalance_gt.
  destruct (JS.gt (JS.Num (digitalTransactions (constructor txs))) _),
           (JS.gt (JS.Num (averageBalance (constructor txs))) _);
    simpl; split; intros H; try reflexivity; try discriminate; auto;
    repeat (destruct H as [H|H]; try discriminate H); contradiction.
Qed.

Lemma In_upSell_account (LocalTZA : Z -> Z) (txs : list Transaction) :
  In premiumBankingAccount (upSell (opportunities (results LocalTZA txs))) <->
  PeakBalance txs.
Proof.
  destruct (crossSell_upSell_results LocalTZA txs) as [_ ->].
  rewrite <- maxBalance_gt.
  destruct (JS.gt (maxBalance (constructor txs)) _);
    simpl; split; intros H; try reflexivity; try discriminate; auto;
    repeat (destruct H as [H|H]; try discriminate H); contradiction.
Qed.

Lemma digitalCount_app (l l' : list Transaction) :
  digitalCount (l ++ l') = (digitalCount l + digitalCount l')%nat.
Proof. unfold digitalCount. now rewrite filter_app, length_app. Qed.

(** For whole balances the rounded mean decides as the mean does. *)
Lemma RoundedBalanceHealth_whole (zs : list Z) (txs : list Transaction) :
  wholeBalances zs txs -> Z.of_nat (length txs) < 2 ^ 32 ->
  (RoundedBalanceHealth txs <-> BalanceHealth txs).
Proof.
  intros [Hb Hs] Hlen.
  assert (Hl : length zs = length txs).
  { rewrite <- (length_map inject_Z zs), <- Hb. apply length_map. }
  rewrite BalanceHealth_iff. unfold RoundedBalanceHealth.
  rewrite Hb, Qsum_inject_Z, roundedMean_whole by exact Hs.
  rewrite <- Zlt_Qlt, <- Hl.
  destruct zs as [|z zs].
  - destruct txs; [|discriminate Hl]. cbn [exceeds]. tauto.
  - rewrite round64_exceeds_100000.
    + replace (Z.pos (Pos.of_nat (length (z :: zs))))
        with (Z.of_nat (length (z :: zs)))
        by (cbn [length]; rewrite <- Pos.of_nat_succ; lia).
      split; [intros H; split; [|exact H] | intros [_ H]; exact H].
      intros ->. discriminate Hl.
    + replace (Z.pos (Pos.of_nat (length (z :: zs))))
        with (Z.of_nat (length (z :: zs)))
        by (cbn [length]; rewrite <- Pos.of_nat_succ; lia).
      rewrite Hl. apply Z.lt_trans with (2 ^ 32); [exact Hlen | reflexivity].
Qed.

Lemma BalanceHealth_whole (zs : list Z) (txs : list Transaction) :
  wholeBalances zs txs ->
  (BalanceHealth txs <-> 100000 * Z.of_nat (length txs) < Zsum zs).
Proof.
  intros [Hb _]. rewrite BalanceHealth_iff, Hb, Qsum_inject_Z, <- Zlt_Qlt.
  split; [intros [_ H]; exact H | intros H; split; [|exact H]].
  intros ->. destruct zs; [simpl in H; lia | discriminate Hb].
Qed.

Section Opportunity.

Variable LocalTZA : Z -> Z.

(** C5, amended: each rule contributes its one fixed recommendation
    exactly when its own predicate holds: the premium card (confidence 0.8)
    and the investment (confidence 0.75), in this order, to [crossSell],
    the premium account (eligibility 0.9) to [upSell]; no rule looks at
    another. The mean of the balance rule is the one binary64 arithmetic
    gives: the balances are added in the order of the list, every sum is
    rounded, and so is the quotient. It decides as the mean of the table
    does when the balances are whole numbers whose absolute values add up
    to at most 2^53 (the list being an array, of fewer than 2^32
    elements). *)
Theorem C5_opportunity_rules_rounded (txs : list Transaction) :
  exists digital health peak : bool,
    (digital = true <-> DigitalAffinity txs) /\
    (health = true <-> RoundedBalanceHealth txs) /\
    (peak = true <-> PeakBalance txs) /\
    crossSell (opportunities (results LocalTZA txs)) =
      (if digital then [premiumCreditCard] else []) ++
      (if health then [mutualFundInvestment] else []) /\
    upSell (opportunities (results LocalTZA txs)) =
      (if peak then [premiumBankingAccount] else []) /\
    CrossSell.confidence premiumCreditCard = 8 # 10 /\
    CrossSell.confidence mutualFundInvestment = 75 # 100 /\
    UpSell.eligibility premiumBankingAccount = 9 # 10 /\
    (forall zs, wholeBalances zs txs -> Z.of_nat (length txs) < 2 ^ 32 ->
       (health = true <-> BalanceHealth txs)).
Proof.
  exists (JS.gt (JS.Num (digitalTransactions (constructor txs)))
                (JS.Num (JS.Finite (7 # 10)))),
         (JS.gt (JS.Num (averageBalance (constructor txs)))
                (number_literal 100000)),
         (JS.gt (maxBalance (constructor txs)) (number_literal 500000)).
  split; [apply digitalTransactions_gt|].
  split; [apply averageBalance_gt|].
  split; [apply maxBalance_gt|].
  assert (Hwhole : forall zs, wholeBalances zs txs ->
            Z.of_nat (length txs) < 2 ^ 32 ->
            (JS.gt (JS.Num (averageBalance (constructor txs)))
                   (number_literal 100000) = true <-> BalanceHealth txs)).
  { intros zs Hzs Hlen. rewrite averageBalance_gt.
    now apply (RoundedBalanceHealth_whole zs). }
  rewrite opportunities_results. unfold analyzeBusinessOpportunities.
  destruct (JS.gt (JS.Num (digitalTransactions (constructor txs))) _),
           (JS.gt (JS.Num (averageBalance (constructor txs))) _),
           (JS.gt (maxBalance (constructor txs)) _);
    repeat split; try (now apply (Hwhole zs)).
Qed.

End Opportunity.

(** C5 as stated fails, both ways. The four balances of [fourBalances] have
    the mean 100,000 exactly, which is not above 100,000, and the
    investment is recommended: the rounded sum is 400,000.00000000006. The
    balances of [cancellingBalances] have the mean 100,000.25 and those of
    [threeBalances] a mean above 100,000 by a third of 2^-36, and nothing
    is recommended: the rounded sums are 400,000 and 300,000. *)
Lemma C5_exact_mean_counterexample :
  ((Qsum fourBalances == inject_Z 400000)%Q /\
   ~ BalanceHealth (statement fourBalances) /\
   crossSell (opportunities (results utc (statement fourBalances))) =
     [mutualFundInvestment]) /\
  ((Qsum cancellingBalances == inject_Z 400001)%Q /\
   BalanceHealth (statement cancellingBalances) /\
   crossSell (opportunities (results utc (statement cancellingBalances))) =
     []) /\
  (BalanceHealth (statement threeBalances) /\
   crossSell (opportunities (results utc (statement threeBalances))) = []).
Proof.
  split; [|split].
  - split; [reflexivity|].
    split; [intros [_ H]; vm_compute in H; discriminate H|].
    vm_compute. reflexivity.
  - split; [reflexivity|].
    split; [split; [discriminate | vm_compute; reflexivity]|].
    vm_compute. reflexivity.
  - split; [split; [discriminate | vm_compute; reflexivity]|].
    vm_compute. reflexivity.
Qed.

(** ** Outputs are drawn from the input, in its order *)

Lemma Subseq_filter {A : Type} (p : A -> bool) (l : list A) :
  Subseq (List.filter p l) l.
Proof.
  induction l as [|x l IH]; simpl; [constructor|].
  destruct (p x); now constructor.
Qed.

Lemma Subseq_In {A : Type} (l l' : list A) :
  Subseq l l' -> forall x, In x l -> In x l'.
Proof.
  induction 1; intros y Hy.
  - exact Hy.
  - right. now apply IHSubseq.
  - destruct Hy as [<-|Hy]; [now left | right; now apply IHSubseq].
Qed.

Lemma Subseq_trans {A : Type} (l1 l2 l3 : list A) :
  Subseq l1 l2 -> Subseq l2 l3 -> Subseq l1 l3.
Proof.
  intros H12 H23. revert l1 H12.
  induction H23 as [|x l2 l3 H IH|x l2 l3 H IH]; intros l1 H12.
  - exact H12.
  - constructor. now apply IH.
  - inversion H12; subst.
    + constructor. now apply IH.
    + apply Subseq_keep. now apply IH.
Qed.

Section Provenance.

Variable LocalTZA : Z -> Z.

(** C10: every reported group and the [unusualTiming] list are
    subsequences of the input (so their transactions are input
    transactions, in the input's relative order), and no method changes
    the analyzer's transaction list. *)
Theorem C10_outputs_from_input (txs : list Transaction) :
  (forall g,
     In g (regularIncome (patterns (results LocalTZA txs))) \/
     In g (recurringExpenses (patterns (results LocalTZA txs))) \/
     In g (highVelocity (fraudIndicators (results LocalTZA txs))) ->
     Subseq g txs /\ forall t, In t g -> In t txs) /\
  Subseq (unusualTiming (fraudIndicators (results LocalTZA txs))) txs /\
  (forall t, In t (unusualTiming (fraudIndicators (results LocalTZA txs))) ->
             In t txs) /\
  transactions (snd (analyze LocalTZA txs)) = txs /\
  (forall this,
     snd (analyzeTransactionPatterns this) = this /\
     snd (detectFraudIndicators LocalTZA this) = this /\
     snd (analyzeBusinessOpportunities this) = this).
Proof.
  assert (Hgroups : forall g,
     In g (regularIncome (patterns (results LocalTZA txs))) \/
     In g (recurringExpenses (patterns (results LocalTZA txs))) \/
     In g (highVelocity (fraudIndicators (results LocalTZA txs))) ->
     Subseq g txs).
  { intros g [Hg|[Hg|Hg]].
    - apply In_regularIncome in Hg. destruct Hg as [k [-> _]].
      apply Subseq_trans with (credits txs); apply Subseq_filter.
    - apply In_recurringExpenses in Hg. destruct Hg as [k [-> _]].
      apply Subseq_trans with (debits txs); apply Subseq_filter.
    - apply In_highVelocity in Hg. destruct Hg as [k [-> _]].
      apply Subseq_filter. }
  assert (Htiming :
            Subseq (unusualTiming (fraudIndicators (results LocalTZA txs))) txs).
  { rewrite unusualTiming_results. apply Subseq_filter. }
  split; [|split; [|split; [|split]]].
  - intros g Hg. split; [now apply Hgroups|].
    apply Subseq_In. now apply Hgroups.
  - exact Htiming.
  - apply Subseq_In. exact Htiming.
  - reflexivity.
  - intros this. repeat split.
Qed.

End Provenance.

(** ** Transactions that are neither Credit nor Debit *)

Section OtherTypes.

Variable LocalTZA : Z -> Z.

(** C9: a transaction [t] whose type is neither Credit nor Debit, placed
    anywhere in the input, is in no pattern group; the off-hours filter
    keeps or drops it by its hour alone; it is a member of its own hour
    bucket, which is reported as soon as it holds more than 5
    transactions; and the three recommendations are decided with [t]
    counted: the premium card by the digital transactions among all
    transactions, [t] among them, the investment by the rounded mean of
    all balances, that of [t] in its place, the premium account by the
    balances of all transactions, that of [t] or another one. *)
Theorem C9_other_types (t : Transaction) (l1 l2 : list Transaction) :
  type t <> "Credit"%string ->
  type t <> "Debit"%string ->
  let txs := l1 ++ t :: l2 in
  (forall g, In g (regularIncome (patterns (results LocalTZA txs))) ->
             ~ In t g) /\
  (forall g, In g (recurringExpenses (patterns (results LocalTZA txs))) ->
             ~ In t g) /\
  (In t (unusualTiming (fraudIndicators (results LocalTZA txs))) <->
   In (Date.getHours LocalTZA (date t)) [23; 0; 1; 2; 3; 4]) /\
  In t (hourBucketMembers (hourBucket t) txs) /\
  length (hourBucketMembers (hourBucket t) txs) =
    (length (hourBucketMembers (hourBucket t) l1) + 1
     + length (hourBucketMembers (hourBucket t) l2))%nat /\
  ((5 < length (hourBucketMembers (hourBucket t) txs))%nat ->
   In (hourBucketMembers (hourBucket t) txs)
      (highVelocity (fraudIndicators (results LocalTZA txs)))) /\
  (In premiumCreditCard (crossSell (opportunities (results LocalTZA txs))) <->
   (7 * (length l1 + 1 + length l2)
    < 10 * (digitalCount l1 + digitalCount [t] + digitalCount l2))%nat) /\
  (In mutualFundInvestment (crossSell (opportunities (results LocalTZA txs))) <->
   exceeds (roundedMean (map balance l1 ++ balance t :: map balance l2))
           (inject_Z 100000)) /\
  (In premiumBankingAccount (upSell (opportunities (results LocalTZA txs))) <->
   (inject_Z 500000 < balance t)%Q \/
   exists t', In t' (l1 ++ l2) /\ (inject_Z 500000 < balance t')%Q).
Proof.
  intros Hc Hd txs.
  assert (Hin : In t txs) by (apply in_elt).
  split; [|split; [|split; [|split; [|split; [|split; [|split; [|split]]]]]]].
  - intros g Hg Ht. apply In_regularIncome in Hg. destruct Hg as [k [-> _]].
    apply In_bucket in Ht. destruct Ht as [Ht _].
    apply In_credits in Ht. now apply Hc.
  - intros g Hg Ht. apply In_recurringExpenses in Hg. destruct Hg as [k [-> _]].
    apply In_bucket in Ht. destruct Ht as [Ht _].
    apply In_debits in Ht. now apply Hd.
  - rewrite In_unusualTiming. tauto.
  - apply In_bucket. now split.
  - unfold hourBucketMembers, txs.
    rewrite bucket_app, bucket_cons_same by reflexivity.
    rewrite length_app. cbn [length]. lia.
  - intros H. apply In_highVelocity. now exists (hourBucket t).
  - rewrite In_crossSell_card, DigitalAffinity_iff. unfold txs.
    change (t :: l2) with ([t] ++ l2).
    rewrite !digitalCount_app, !length_app. cbn [length]. lia.
  - rewrite In_crossSell_fund. unfold RoundedBalanceHealth, txs.
    rewrite map_app. reflexivity.
  - rewrite In_upSell_account, PeakBalance_iff. unfold txs. split.
    + intros [t' [Ht' Hlt]]. apply in_app_or in Ht'.
      destruct Ht' as [Ht'|[<-|Ht']].
      * right. exists t'. split; [apply in_or_app; now left | exact Hlt].
      * now left.
      * right. exists t'. split; [apply in_or_app; now right | exact Hlt].
    + intros [Hlt|[t' [Ht' Hlt]]].
      * exists t. split; [exact Hin | exact Hlt].
      * exists t'. split; [|exact Hlt]. apply in_app_or in Ht'.
        apply in_or_app. destruct Ht' as [Ht'|Ht']; [now left|].
        right. now right.
Qed.

End OtherTypes.

(** C9, on a reversal entry placed after one credit: it is listed in
    [unusualTiming], it is one of the two transactions of which one is
    digital, so that no card is recommended, and its balance alone brings
    the premium account. *)
Lemma C9_other_types_witness :
  type reversal <> "Credit"%string /\
  type reversal <> "Debit"%string /\
  In reversal (unusualTiming
                 (fraudIndicators
                    (results (fun _ => 0) ([branchCredit] ++ reversal :: [])))) /\
  ~ In premiumCreditCard
       (crossSell (opportunities
                     (results (fun _ => 0) ([branchCredit] ++ reversal :: [])))) /\
  In premiumBankingAccount
     (upSell (opportunities
                (results (fun _ => 0) ([branchCredit] ++ reversal :: [])))).
Proof.
  assert (Hc : type reversal <> "Credit"%string) by discriminate.
  assert (Hd : type reversal <> "Debit"%string) by discriminate.
  pose proof (C9_other_types (fun _ => 0) reversal [branchCredit] [] Hc Hd) as H.
  cbv zeta in H.
  destruct H as (_ & _ & Htiming & _ & _ & _ & Hcard & _ & Haccount).
  split; [exact Hc|]. split; [exact Hd|].
  split; [apply (proj2 Htiming); vm_compute; tauto|].
  split.
  - intros Hin. apply (proj1 Hcard) in Hin. vm_compute in Hin. lia.
  - apply (proj2 Haccount). left. vm_compute. reflexivity.
Defined.

(** ** The shape of the pattern outputs *)

Section FilterGroupByKeys.
Context {A K : Type}.
Variable K_dec : forall x y : K, {x = y} + {x <> y}.
Variable arrayIndex : K -> option N.
Variable iteratee : A -> K.
Variable predicate : list A -> bool.

(** The filtered groups are the buckets of pairwise distinct keys: one
    group for each key whose bucket is not empty and passes the
    predicate. *)
Lemma filter_groupBy_keys l :
  exists ks,
    NoDup ks /\
    Lodash.filter predicate (Lodash.groupBy K_dec arrayIndex iteratee l) =
      map (fun k => bucket K_dec iteratee k l) ks /\
    forall k, In k ks <->
              bucket K_dec iteratee k l <> [] /\
              predicate (bucket K_dec iteratee k l) = true.
Proof.
  exists (List.filter (fun k => predicate (bucket K_dec iteratee k l))
            (JS.keys (Lodash.groupBy K_dec arrayIndex iteratee l))).
  split; [|split].
  - apply NoDup_filter. apply (groupBy_grouped K_dec iteratee arrayIndex l).
  - unfold Lodash.filter. rewrite groupBy_values. apply filter_map_swap.
  - intros k. rewrite filter_In, In_keys_groupBy, bucket_nonempty. tauto.
Qed.
End FilterGroupByKeys.

(** C6 as stated fails on the scenario: the only key of each output is the
    position 0, and nothing is stored under 50000 or 1200. *)
Lemma C6_keyed_by_amount_counterexample :
  JS.Object_keys (regularIncome (patterns (results utc scenario))) = [0] /\
  JS.prop (regularIncome (patterns (results utc scenario))) (50000 # 1) = None /\
  JS.Object_keys (recurringExpenses (patterns (results utc scenario))) = [0] /\
  JS.prop (recurringExpenses (patterns (results utc scenario))) (1200 # 1) = None.
Proof. repeat split. Qed.

Section PatternShape.

Variable LocalTZA : Z -> Z.

(** C6, amended: [regularIncome] and [recurringExpenses] are arrays, keyed
    by position, holding one group for each qualifying amount (all the
    Credit, resp. Debit, transactions of that amount), so a qualifying
    group is found by looking for its amount among the groups; on the
    scenario [regularIncome] has the single entry of the 3 credits of
    50000, at position 0, and [recurringExpenses] the single entry of the
    2 debits of 1200, at position 0. *)
Theorem C6_pattern_arrays (txs : list Transaction) :
  (exists ks,
     NoDup ks /\
     regularIncome (patterns (results LocalTZA txs)) =
       map (fun k => amountMembers k (credits txs)) ks /\
     forall k, In k ks <->
               (3 <= length (amountMembers k (credits txs)))%nat) /\
  (exists ks,
     NoDup ks /\
     recurringExpenses (patterns (results LocalTZA txs)) =
       map (fun k => amountMembers k (debits txs)) ks /\
     forall k, In k ks <->
               (2 <= length (amountMembers k (debits txs)))%nat) /\
  JS.Object_keys (regularIncome (patterns (results LocalTZA scenario))) = [0] /\
  JS.prop (regularIncome (patterns (results LocalTZA scenario))) 0 =
    Some [salary 1704448800000; salary 1707127200000; salary 1709632800000] /\
  JS.Object_keys (recurringExpenses (patterns (results LocalTZA scenario))) = [0] /\
  JS.prop (recurringExpenses (patterns (results LocalTZA scenario))) 0 =
    Some [subscription; subscription].
Proof.
  split; [|split; [|repeat split]].
  - rewrite regularIncome_results. unfold groupByAmount.
    destruct (filter_groupBy_keys Key.Q_dec Key.arrayIndex_of_number amountKey
                (fun group => 3 <=? Z.of_nat (length group)) (credits txs))
      as [ks [Hnd [Heq Hks]]].
    exists ks. split; [exact Hnd|]. split; [exact Heq|].
    intros k. rewrite Hks. unfold amountMembers.
    rewrite Z.leb_le.
    destruct (bucket Key.Q_dec amountKey k (credits txs)); cbn [length].
    + split; [intros [H _]; now elim H | lia].
    + split; [lia | intros H; split; [discriminate | lia]].
  - rewrite recurringExpenses_results. unfold groupByAmount.
    destruct (filter_groupBy_keys Key.Q_dec Key.arrayIndex_of_number amountKey
                (fun group => 2 <=? Z.of_nat (length group)) (debits txs))
      as [ks [Hnd [Heq Hks]]].
    exists ks. split; [exact Hnd|]. split; [exact Heq|].
    intros k. rewrite Hks. unfold amountMembers.
    rewrite Z.leb_le.
    destruct (bucket Key.Q_dec amountKey k (debits txs)); cbn [length].
    + split; [intros [H _]; now elim H | lia].
    + split; [lia | intros H; split; [discriminate | lia]].
Qed.

End PatternShape.

(** ** Reordering the input *)

Lemma DigitalAffinity_Permutation txs txs' :
  Permutation txs txs' -> DigitalAffinity txs -> DigitalAffinity txs'.
Proof.
  intros Hp [Hne Hlt]. unfold DigitalAffinity, digitalCount in *.
  rewrite <- (Permutation_length Hp).
  rewrite <- (Permutation_length (filter_Permutation _ _ _ Hp)).
  split; [|exact Hlt].
  intros ->. apply Hne. now apply Permutation_nil, Permutation_sym.
Qed.

Lemma PeakBalance_Permutation txs txs' :
  Permutation txs txs' -> PeakBalance txs -> PeakBalance txs'.
Proof.
  intros Hp [m [[Hin Hmax] Hlt]]. exists m. split; [|exact Hlt].
  pose proof (Permutation_map balance Hp) as Hb. split.
  - eapply Permutation_in; eassumption.
  - intros x Hx. apply Hmax.
    eapply Permutation_in; [symmetry|]; eassumption.
Qed.

Lemma length_predicate_Permutation (p : nat -> bool) (g g' : list Transaction) :
  Permutation g g' -> p (length g) = p (length g').
Proof. intros H. now rewrite (Permutation_length H). Qed.

(** C8 as stated fails: [statement fourBalances'] is
    [statement fourBalances] with its last two transactions exchanged, and
    the investment is recommended for one and not for the other. The sum
    of the balances is rounded at every addition, so that it depends on
    their order: 400,000.00000000006 here, 400,000 there. *)
Lemma C8_rounded_sum_counterexample :
  Permutation (statement fourBalances) (statement fourBalances') /\
  opportunities (results utc (statement fourBalances)) =
    {| crossSell := [mutualFundInvestment]; upSell := [] |} /\
  opportunities (results utc (statement fourBalances')) =
    {| crossSell := []; upSell := [] |}.
Proof.
  split.
  - unfold statement, fourBalances, fourBalances'. cbn [map].
    do 2 apply perm_skip. apply perm_swap.
  - split; vm_compute; reflexivity.
Qed.

(** The order of the input also shows in the findings that a reordering
    keeps: [ledger'] is [ledger] reordered; the groups of [regularIncome]
    and the transactions of [unusualTiming] come in another order. *)
Example ledger_reordered :
  Permutation ledger ledger' /\
  map (map amount) (regularIncome (patterns (results utc ledger))) =
    [[3001 # 2; 3001 # 2; 3001 # 2]; [24999 # 100; 24999 # 100; 24999 # 100]] /\
  map (map amount) (regularIncome (patterns (results utc ledger'))) =
    [[24999 # 100; 24999 # 100; 24999 # 100]; [3001 # 2; 3001 # 2; 3001 # 2]] /\
  unusualTiming (fraudIndicators (results utc ledger)) =
    [interest 1704929400000; dividend 1704939300000] /\
  unusualTiming (fraudIndicators (results utc ledger')) =
    [dividend 1704939300000; interest 1704929400000].
Proof.
  split; [apply Permutation_app_comm|].
  split; [reflexivity|]. split; [reflexivity|].
  split; reflexivity.
Qed.

Section Reordering.

Variable LocalTZA : Z -> Z.

(** C8, amended: for a reordering of the input the pattern detector and
    the fraud screen report the same findings up to order: the same
    pattern groups and the same velocity buckets, up to the order of the
    groups in their array and of the members in each group, and the same
    [unusualTiming] transactions up to their order; the premium card and
    the premium account are recommended for both orders or for neither;
    and all recommendations are the same when the balances are whole
    numbers whose absolute values add up to at most 2^53, which are added
    without rounding. *)
Theorem C8_same_findings_up_to_order (txs txs' : list Transaction) :
  Permutation txs txs' ->
  same_groups (regularIncome (patterns (results LocalTZA txs)))
              (regularIncome (patterns (results LocalTZA txs'))) /\
  same_groups (recurringExpenses (patterns (results LocalTZA txs)))
              (recurringExpenses (patterns (results LocalTZA txs'))) /\
  same_groups (highVelocity (fraudIndicators (results LocalTZA txs)))
              (highVelocity (fraudIndicators (results LocalTZA txs'))) /\
  Permutation (unusualTiming (fraudIndicators (results LocalTZA txs)))
              (unusualTiming (fraudIndicators (results LocalTZA txs'))) /\
  (In premiumCreditCard (crossSell (opportunities (results LocalTZA txs))) <->
   In premiumCreditCard (crossSell (opportunities (results LocalTZA txs')))) /\
  upSell (opportunities (results LocalTZA txs)) =
  upSell (opportunities (results LocalTZA txs')) /\
  (forall zs, wholeBalances zs txs ->
     opportunities (results LocalTZA txs) =
     opportunities (results LocalTZA txs')).
Proof.
  intros Hp. pose proof (Permutation_sym Hp) as Hp'.
  assert (E1 : JS.gt (JS.Num (digitalTransactions (constructor txs)))
                     (JS.Num (JS.Finite (7 # 10))) =
               JS.gt (JS.Num (digitalTransactions (constructor txs')))
                     (JS.Num (JS.Finite (7 # 10)))).
  { apply bool_eq_iff. rewrite !digitalTransactions_gt.
    split; now apply DigitalAffinity_Permutation. }
  assert (E3 : JS.gt (maxBalance (constructor txs)) (number_literal 500000) =
               JS.gt (maxBalance (constructor txs')) (number_literal 500000)).
  { apply bool_eq_iff. rewrite !maxBalance_gt.
    split; now apply PeakBalance_Permutation. }
  split; [|split; [|split; [|split; [|split; [|split]]]]].
  - rewrite !regularIncome_results. unfold groupByAmount.
    apply filter_groupBy_Permutation.
    + intros g g'.
      apply (length_predicate_Permutation (fun n => 3 <=? Z.of_nat n)).
    + now apply filter_Permutation.
  - rewrite !recurringExpenses_results. unfold groupByAmount.
    apply filter_groupBy_Permutation.
    + intros g g'.
      apply (length_predicate_Permutation (fun n => 2 <=? Z.of_nat n)).
    + now apply filter_Permutation.
  - rewrite !highVelocity_results. unfold groupByHour.
    apply filter_groupBy_Permutation.
    + intros g g'.
      apply (length_predicate_Permutation (fun n => 5 <? Z.of_nat n)).
    + exact Hp.
  - rewrite !unusualTiming_results.
    now apply filter_Permutation.
  - rewrite !In_crossSell_card.
    split; now apply DigitalAffinity_Permutation.
  - destruct (crossSell_upSell_results LocalTZA txs) as [_ ->].
    destruct (crossSell_upSell_results LocalTZA txs') as [_ ->].
    now rewrite E3.
  - intros zs Hzs. rewrite !opportunities_results.
    unfold analyzeBusinessOpportunities. cbn [fst].
    rewrite E1, E3. unfold averageBalance. cbn [constructor transactions].
    now rewrite !mean_roundedMean,
      (roundedMean_whole_Permutation zs txs txs' Hzs Hp).
Qed.

End Reordering.

(** C8 as amended, on the two orders of the ledger, whose balances are
    whole numbers. *)
Lemma C8_same_findings_up_to_order_witness :
  Permutation ledger ledger' /\
  wholeBalances [40000; 40000; 40000; 40000; 40000; 40000] ledger /\
  same_groups (regularIncome (patterns (results utc ledger)))
              (regularIncome (patterns (results utc ledger'))) /\
  Permutation (unusualTiming (fraudIndicators (results utc ledger)))
              (unusualTiming (fraudIndicators (results utc ledger'))) /\
  opportunities (results utc ledger) = opportunities (results utc ledger').
Proof.
  assert (Hp : Permutation ledger ledger') by apply Permutation_app_comm.
  assert (Hw : wholeBalances [40000; 40000; 40000; 40000; 40000; 40000] ledger)
    by (split; [reflexivity | vm_compute; discriminate]).
  destruct (C8_same_findings_up_to_order utc ledger ledger' Hp)
    as (Hri & _ & _ & Hut & _ & _ & Hop).
  split; [exact Hp|]. split; [exact Hw|]. split; [exact Hri|].
  split; [exact Hut | exact (Hop _ Hw)].
Defined.

(** ** Examples *)

(** Key order: array indices first, ascending, then the other keys in the
    order of their creation. *)
Example groupByAmount_key_order :
  JS.keys (groupByAmount
             [interest 0; salary 0; dividend 0; subscription; salary 1]) =
  [1200 # 1; 50000 # 1; 3001 # 2; 24999 # 100].
Proof. reflexivity. Qed.

Example groupByHour_key_order :
  JS.keys (groupByHour
             [salary 1709632800000; subscription; salary 1704448800000;
              salary 1709632800001]) =
  ["2024-03-05T10"; "2024-01-10T23"; "2024-01-05T10"]%string.
Proof. reflexivity. Qed.

Example toISOString_epoch :
  Date.toISOString 0 = "1970-01-01T00:00:00.000Z"%string.
Proof. reflexivity. Qed.

Example toISOString_leap_day :
  Date.toISOString 1709217296789 = "2024-02-29T14:34:56.789Z"%string.
Proof. reflexivity. Qed.

Example toISOString_before_epoch :
  Date.toISOString (-1) = "1969-12-31T23:59:59.999Z"%string.
Proof. reflexivity. Qed.

Example toISOString_year_10000 :
  Date.toISOString 253402300800000 = "+010000-01-01T00:00:00.000Z"%string.
Proof. reflexivity. Qed.

(** Rounding on well-known values: 0.1, 0.1 + 0.2 (which is not the number
    0.3), 2^53 + 1, the largest number and the first value that rounds to
    [Infinity], the smallest number and half of it. *)
Example round64_tenth :
  JS.round64 (1 # 10) = JS.Finite (3602879701896397 # 36028797018963968).
Proof. vm_compute. reflexivity. Qed.

Example add_tenth_fifth :
  JS.add (JS.round64 (1 # 10)) (JS.round64 (2 # 10)) =
    JS.Finite (1351079888211149 # 4503599627370496) /\
  JS.round64 (3 # 10) = JS.Finite (5404319552844595 # 18014398509481984).
Proof. split; vm_compute; reflexivity. Qed.

Example add_beyond_2_53 :
  JS.add (JS.Finite (inject_Z (2 ^ 53))) (JS.Finite 1) =
  JS.Finite (inject_Z (2 ^ 53)).
Proof. vm_compute. reflexivity. Qed.

Example round64_largest :
  JS.round64 (inject_Z (2 ^ 1024 - 2 ^ 970 - 1)) =
    JS.Finite (inject_Z (2 ^ 1024 - 2 ^ 971)) /\
  JS.round64 (inject_Z (2 ^ 1024 - 2 ^ 970)) = JS.Infinity /\
  JS.round64 (inject_Z (- 2 ^ 1024)) = JS.NegInfinity.
Proof. repeat split; vm_compute; reflexivity. Qed.

Example round64_smallest :
  JS.round64 (1 # Z.to_pos (2 ^ 1074)) =
    JS.Finite (1 # Z.to_pos (2 ^ 1074)) /\
  JS.round64 (1 # Z.to_pos (2 ^ 1075)) = JS.Finite 0 /\
  JS.round64 (3 # Z.to_pos (2 ^ 1075)) = JS.Finite (1 # Z.to_pos (2 ^ 1073)).
Proof. repeat split; vm_compute; reflexivity. Qed.

Example affluent_opportunities :
  opportunities (results utc affluent) =
  {| crossSell := [premiumCreditCard; mutualFundInvestment];
     upSell := [premiumBankingAccount] |}.
Proof. reflexivity. Qed.

(** The balances of the scenario are whole numbers: their mean, 150,000,
    is computed without rounding. *)
Example affluent_wholeBalances :
  wholeBalances [600000; 50000; 40000; 30000; 30000] affluent /\
  averageBalance (constructor affluent) = JS.Finite (inject_Z 150000).
Proof.
  split; [split; [reflexivity | vm_compute; discriminate]|].
  vm_compute. reflexivity.
Qed.

(** The sums of the four balances in their two orders, and their means. *)
Example fourBalances_means :
  Lodash.baseSum fourBalances =
    Some (JS.Finite (6871947673600001 # 17179869184)) /\
  Lodash.baseSum fourBalances' = Some (JS.Finite (inject_Z 400000)) /\
  Lodash.mean fourBalances = JS.Finite (6871947673600001 # 68719476736) /\
  Lodash.mean fourBalances' = JS.Finite (inject_Z 100000).
Proof. repeat split; vm_compute; reflexivity. Qed.

Example sixInOneHour_highVelocity :
  map (map date) (highVelocity (fraudIndicators (results utc sixInOneHour))) =
  [[1705312800000; 1705312860000; 1705312920000; 1705312980000;
    1705313040000; 1705313100000]].
Proof. reflexivity. Qed.

(** * Further properties of the analyses *)

(** ** Which transactions the pattern detector reports *)

Lemma amountMembers_sameAmount (ty : string) (t : Transaction)
  (txs : list Transaction) :
  amountMembers (amountKey t)
    (List.filter (fun t' => String.eqb (type t') ty) txs) =
  sameAmount ty t txs.
Proof.
  unfold amountMembers, bucket, sameAmount.
  induction txs as [|t' txs IH]; simpl; [reflexivity|].
  destruct (String.eqb (type t') ty); simpl.
  - rewrite IH.
    destruct (Key.Q_dec (amountKey t') (amountKey t)) as [E|E];
      destruct (Qeq_bool (amount t') (amount t)) eqn:B; try reflexivity.
    + apply amountKey_eq, Qeq_bool_iff in E. congruence.
    + apply Qeq_bool_iff, amountKey_eq in B. contradiction.
  - exact IH.
Qed.

Section Membership.

Variable LocalTZA : Z -> Z.

(** X1: a transaction is in some group of [regularIncome] exactly when it
    is a Credit of the input and at least 3 Credits of the input have its
    amount; it is in some group of [recurringExpenses] exactly when it is a
    Debit of the input and at least 2 Debits of the input have its
    amount. *)
Theorem X1_pattern_membership (txs : list Transaction) (t : Transaction) :
  (In t (concat (regularIncome (patterns (results LocalTZA txs)))) <->
   In t txs /\ type t = "Credit"%string /\
   (3 <= length (sameAmount "Credit" t txs))%nat) /\
  (In t (concat (recurringExpenses (patterns (results LocalTZA txs)))) <->
   In t txs /\ type t = "Debit"%string /\
   (2 <= length (sameAmount "Debit" t txs))%nat).
Proof.
  split; rewrite in_concat.
  - split.
    + intros [g [Hg Ht]]. apply In_regularIncome in Hg.
      destruct Hg as [k [-> Hlen]]. unfold amountMembers in Ht.
      pose proof Ht as Ht'. apply In_bucket in Ht'. destruct Ht' as [Hc <-].
      apply In_credits in Hc. destruct Hc as [Hin Hty].
      split; [exact Hin|]. split; [exact Hty|].
      rewrite <- amountMembers_sameAmount. exact Hlen.
    + intros (Hin & Hty & Hlen).
      exists (amountMembers (amountKey t) (credits txs)). split.
      * apply In_regularIncome. exists (amountKey t). split; [reflexivity|].
        unfold credits. now rewrite amountMembers_sameAmount.
      * apply In_bucket. split; [|reflexivity]. now apply In_credits.
  - split.
    + intros [g [Hg Ht]]. apply In_recurringExpenses in Hg.
      destruct Hg as [k [-> Hlen]]. unfold amountMembers in Ht.
      pose proof Ht as Ht'. apply In_bucket in Ht'. destruct Ht' as [Hc <-].
      apply In_debits in Hc. destruct Hc as [Hin Hty].
      split; [exact Hin|]. split; [exact Hty|].
      rewrite <- amountMembers_sameAmount. exact Hlen.
    + intros (Hin & Hty & Hlen).
      exists (amountMembers (amountKey t) (debits txs)). split.
      * apply In_recurringExpenses. exists (amountKey t). split; [reflexivity|].
        unfold debits. now rewrite amountMembers_sameAmount.
      * apply In_bucket. split; [|reflexivity]. now apply In_debits.
Qed.

(** X2: the reported groups do not overlap: a transaction that is in two
    groups of [regularIncome] (or of [recurringExpenses], or of
    [highVelocity]) is in one and the same group, and no transaction is in
    both a [regularIncome] and a [recurringExpenses] group. *)
Theorem X2_groups_disjoint (txs : list Transaction) (t : Transaction) :
  (forall g g',
     In g (regularIncome (patterns (results LocalTZA txs))) ->
     In g' (regularIncome (patterns (results LocalTZA txs))) ->
     In t g -> In t g' -> g = g') /\
  (forall g g',
     In g (recurringExpenses (patterns (results LocalTZA txs))) ->
     In g' (recurringExpenses (patterns (results LocalTZA txs))) ->
     In t g -> In t g' -> g = g') /\
  (forall g g',
     In g (highVelocity (fraudIndicators (results LocalTZA txs))) ->
     In g' (highVelocity (fraudIndicators (results LocalTZA txs))) ->
     In t g -> In t g' -> g = g') /\
  (forall g g',
     In g (regularIncome (patterns (results LocalTZA txs))) ->
     In g' (recurringExpenses (patterns (results LocalTZA txs))) ->
     ~ (In t g /\ In t g')).
Proof.
  split; [|split; [|split]].
  - intros g g' Hg Hg' Ht Ht'.
    apply In_regularIncome in Hg, Hg'.
    destruct Hg as [k [-> _]], Hg' as [k' [-> _]].
    apply In_bucket in Ht, Ht'. destruct Ht as [_ <-], Ht' as [_ <-].
    reflexivity.
  - intros g g' Hg Hg' Ht Ht'.
    apply In_recurringExpenses in Hg, Hg'.
    destruct Hg as [k [-> _]], Hg' as [k' [-> _]].
    apply In_bucket in Ht, Ht'. destruct Ht as [_ <-], Ht' as [_ <-].
    reflexivity.
  - intros g g' Hg Hg' Ht Ht'.
    apply In_highVelocity in Hg, Hg'.
    destruct Hg as [k [-> _]], Hg' as [k' [-> _]].
    apply In_bucket in Ht, Ht'. destruct Ht as [_ <-], Ht' as [_ <-].
    reflexivity.
  - intros g g' Hg Hg' [Ht Ht'].
    apply In_regularIncome in Hg. apply In_recurringExpenses in Hg'.
    destruct Hg as [k [-> _]], Hg' as [k' [-> _]].
    apply In_bucket in Ht, Ht'. destruct Ht as [Hc _], Ht' as [Hd _].
    apply In_credits in Hc. apply In_debits in Hd.
    destruct Hc as [_ Hc], Hd as [_ Hd]. rewrite Hc in Hd. discriminate Hd.
Qed.

End Membership.

(** ** The opportunity rules without divisions *)

Section Criteria.

Variable LocalTZA : Z -> Z.

(** X3: the premium card is recommended exactly when ten times the number
    of digital-channel transactions exceeds seven times the number of all
    transactions; the premium account exactly when some transaction has a
    balance above 500,000; the investment exactly when the rounded mean of
    the balances exceeds 100,000, which for whole balances whose absolute
    values add up to at most 2^53 is exactly when their sum exceeds
    100,000 times their number. *)
Theorem X3_opportunity_criteria (txs : list Transaction) :
  (In premiumCreditCard (crossSell (opportunities (results LocalTZA txs))) <->
   (7 * length txs < 10 * digitalCount txs)%nat) /\
  (In mutualFundInvestment (crossSell (opportunities (results LocalTZA txs))) <->
   exceeds (roundedMean (map balance txs)) (inject_Z 100000)) /\
  (forall zs, wholeBalances zs txs -> Z.of_nat (length txs) < 2 ^ 32 ->
     (In mutualFundInvestment
         (crossSell (opportunities (results LocalTZA txs))) <->
      100000 * Z.of_nat (length txs) < Zsum zs)) /\
  (In premiumBankingAccount (upSell (opportunities (results LocalTZA txs))) <->
   exists t, In t txs /\ (inject_Z 500000 < balance t)%Q).
Proof.
  rewrite In_crossSell_card, In_crossSell_fund, In_upSell_account.
  rewrite DigitalAffinity_iff, PeakBalance_iff.
  split; [tauto|]. split; [unfold RoundedBalanceHealth; tauto|].
  split; [|tauto].
  intros zs Hzs Hlen.
  rewrite In_crossSell_fund, (RoundedBalanceHealth_whole zs txs Hzs Hlen).
  now apply BalanceHealth_whole.
Qed.

End Criteria.
(** ** Appending transactions *)

Section Appending.

Variable LocalTZA : Z -> Z.

(** X4: transactions appended to the input never remove a finding: every
    pattern group and every velocity bucket of the shorter input is the
    beginning of a group reported for the longer one, and [unusualTiming]
    of the longer input is that of the shorter one followed by that of the
    appended transactions. *)
Theorem X4_append_keeps_findings (txs more : list Transaction) :
  (forall g, In g (regularIncome (patterns (results LocalTZA txs))) ->
     exists rest,
       In (g ++ rest) (regularIncome (patterns (results LocalTZA (txs ++ more))))) /\
  (forall g, In g (recurringExpenses (patterns (results LocalTZA txs))) ->
     exists rest,
       In (g ++ rest)
          (recurringExpenses (patterns (results LocalTZA (txs ++ more))))) /\
  (forall g, In g (highVelocity (fraudIndicators (results LocalTZA txs))) ->
     exists rest,
       In (g ++ rest)
          (highVelocity (fraudIndicators (results LocalTZA (txs ++ more))))) /\
  unusualTiming (fraudIndicators (results LocalTZA (txs ++ more))) =
    unusualTiming (fraudIndicators (results LocalTZA txs)) ++
    unusualTiming (fraudIndicators (results LocalTZA more)).
Proof.
  split; [|split; [|split]].
  - intros g Hg. apply In_regularIncome in Hg. destruct Hg as [k [-> Hlen]].
    exists (amountMembers k (credits more)). apply In_regularIncome.
    exists k. unfold credits, amountMembers in *.
    rewrite filter_app, bucket_app. split; [reflexivity|].
    rewrite length_app. lia.
  - intros g Hg. apply In_recurringExpenses in Hg. destruct Hg as [k [-> Hlen]].
    exists (amountMembers k (debits more)). apply In_recurringExpenses.
    exists k. unfold debits, amountMembers in *.
    rewrite filter_app, bucket_app. split; [reflexivity|].
    rewrite length_app. lia.
  - intros g Hg. apply In_highVelocity in Hg. destruct Hg as [k [-> Hlen]].
    exists (hourBucketMembers k more). apply In_highVelocity.
    exists k. unfold hourBucketMembers in *.
    rewrite bucket_app. split; [reflexivity|].
    rewrite length_app. lia.
  - rewrite !unusualTiming_results. apply filter_app.
Qed.

(** X5: the suspicious-hour test is [hour >= start || hour <= end]: for an
    analyzer whose window does not wrap around midnight ([start <= end + 1])
    it holds at every hour, and [unusualTiming] is the whole transaction
    list. *)
Theorem X5_window_without_wrap (this : BankAnalyzer) :
  start (suspiciousTimeRange (fraudThresholds this))
    <= end_ (suspiciousTimeRange (fraudThresholds this)) + 1 ->
  unusualTiming (fst (detectFraudIndicators LocalTZA this)) = transactions this.
Proof.
  intros H. cbn [detectFraudIndicators fst unusualTiming].
  apply forallb_filter_id. apply forallb_forall. intros t _.
  unfold isUnusualTime. apply orb_true_iff. rewrite !Z.leb_le. lia.
Qed.

End Appending.

(** X5, for a window from 9 to 17: every transaction is listed, whatever
    its hour. *)
Lemma X5_window_without_wrap_witness :
  start (suspiciousTimeRange (fraudThresholds (officeHours burst)))
    <= end_ (suspiciousTimeRange (fraudThresholds (officeHours burst))) + 1 /\
  unusualTiming (fst (detectFraudIndicators utc (officeHours burst))) = burst.
Proof.
  assert (H : start (suspiciousTimeRange (fraudThresholds (officeHours burst)))
              <= end_ (suspiciousTimeRange (fraudThresholds (officeHours burst))) + 1)
    by (simpl; lia).
  split; [exact H | exact (X5_window_without_wrap utc (officeHours burst) H)].
Defined.

(** ** What the opportunity rules look at *)

Lemma filter_map_length {A B : Type} (f : A -> B) (p : B -> bool) (l : list A) :
  length (List.filter (fun x => p (f x)) l) = length (List.filter p (map f l)).
Proof.
  induction l as [|x l IH]; simpl; [reflexivity|].
  destruct (p (f x)); simpl; now rewrite IH.
Qed.

Section Blindness.

Variable LocalTZA LocalTZA' : Z -> Z.

(** X6: the recommendations depend on the channels and the balances of the
    transactions only: two inputs with the same channels and the same
    balances, in the same order, get the same recommendations, whatever
    their dates, amounts and types (and the host's time zone). *)
Theorem X6_opportunities_read_channel_and_balance (txs txs' : list Transaction) :
  map channel txs = map channel txs' ->
  map balance txs = map balance txs' ->
  opportunities (results LocalTZA txs) = opportunities (results LocalTZA' txs').
Proof.
  intros Hc Hb. rewrite !opportunities_results.
  unfold analyzeBusinessOpportunities, digitalTransactions, averageBalance,
    maxBalance.
  cbn [constructor transactions fst].
  rewrite !(filter_map_length channel (includes digitalChannels)).
  rewrite Hc, Hb.
  replace (length txs) with (length txs'); [reflexivity|].
  rewrite <- (length_map channel txs'), <- Hc. apply length_map.
Qed.

End Blindness.

(** X6, on the ledger and the same ledger with every date, amount and type
    replaced, in another time zone. *)
Lemma X6_opportunities_read_channel_and_balance_witness :
  map channel ledger = map channel (relabelled ledger) /\
  map balance ledger = map balance (relabelled ledger) /\
  opportunities (results utc ledger) =
  opportunities (results (fun _ => 19800000) (relabelled ledger)).
Proof.
  assert (Hc : map channel ledger = map channel (relabelled ledger))
    by reflexivity.
  assert (Hb : map balance ledger = map balance (relabelled ledger))
    by reflexivity.
  split; [exact Hc|]. split; [exact Hb|].
  exact (X6_opportunities_read_channel_and_balance utc (fun _ => 19800000)
           ledger (relabelled ledger) Hc Hb).
Defined.
(** ** The order of the reported groups *)

Lemma firstOccurrences_app_one {A : Type}
  (dec : forall x y : A, {x = y} + {x <> y}) (l : list A) (x : A) :
  firstOccurrences dec (l ++ [x]) =
  if in_dec dec x l then firstOccurrences dec l
  else firstOccurrences dec l ++ [x].
Proof.
  induction l as [|y l IH]; simpl.
  - reflexivity.
  - rewrite IH. destruct (in_dec dec x l) as [Hin|Hnin].
    + destruct (dec y x); reflexivity.
    + rewrite filter_app. simpl.
      destruct (dec x y) as [->|Hne].
      * destruct (dec y y) as [_|N]; [|now elim N]. now rewrite app_nil_r.
      * destruct (dec y x) as [E|_]; [now elim Hne|]. reflexivity.
Qed.

Section KeyOrder.
Context {A K : Type}.
Variable K_dec : forall x y : K, {x = y} + {x <> y}.
Variable arrayIndex : K -> option N.
Variable iteratee : A -> K.

Lemma define_last (o : @JS.object K (list A)) k v :
  arrayIndex k = None -> JS.define arrayIndex o k v = o ++ [(k, v)].
Proof.
  intros H. induction o as [|[k' v'] o IH]; simpl; [reflexivity|].
  rewrite H. now rewrite IH.
Qed.

Lemma grouped_keys (o : @JS.object K (list A)) l k :
  grouped K_dec iteratee o l ->
  (In k (JS.keys o) <-> In k (map iteratee l)).
Proof.
  intros [_ Hin]. unfold JS.keys. rewrite !in_map_iff. split.
  - intros [[k' g] [<- H]]. apply Hin in H. simpl.
    destruct H as [-> H]. apply (bucket_nonempty K_dec iteratee) in H.
    destruct H as [v [Hv E]]. now exists v.
  - intros [v [E Hv]]. exists (k, bucket K_dec iteratee k l).
    split; [reflexivity|]. apply Hin. split; [reflexivity|].
    apply (bucket_nonempty K_dec iteratee). now exists v.
Qed.

Lemma keys_fold_firstOccurrences xs : forall o pre,
  (forall v, In v xs -> arrayIndex (iteratee v) = None) ->
  grouped K_dec iteratee o pre ->
  JS.keys o = firstOccurrences K_dec (map iteratee pre) ->
  JS.keys (fold_left (fun acc value =>
                        Lodash.groupBy_setter K_dec arrayIndex acc value
                                              (iteratee value))
                     xs o) =
  firstOccurrences K_dec (map iteratee (pre ++ xs)).
Proof.
  induction xs as [|x xs IH]; simpl; intros o pre Hidx Hg Hk.
  - now rewrite app_nil_r.
  - replace (pre ++ x :: xs) with ((pre ++ [x]) ++ xs)
      by (now rewrite <- app_assoc).
    apply IH.
    + intros v Hv. apply Hidx. now right.
    + now apply grouped_setter.
    + rewrite map_app. simpl. rewrite firstOccurrences_app_one.
      unfold Lodash.groupBy_setter.
      destruct (JS.get K_dec o (iteratee x)) as [g|] eqn:Hget.
      * rewrite keys_update.
        assert (Hin : In (iteratee x) (JS.keys o)).
        { destruct (in_dec K_dec (iteratee x) (JS.keys o)) as [H|H];
            [exact H|].
          apply (get_None K_dec) in H. congruence. }
        apply (grouped_keys o pre _ Hg) in Hin.
        destruct (in_dec K_dec (iteratee x) (map iteratee pre));
          [exact Hk | contradiction].
      * apply get_None in Hget.
        rewrite define_last by (apply Hidx; now left).
        unfold JS.keys in *. rewrite map_app. simpl.
        destruct (in_dec K_dec (iteratee x) (map iteratee pre)) as [Hin|_].
        -- apply (grouped_keys o pre _ Hg) in Hin. contradiction.
        -- now rewrite Hk.
Qed.

(** When no key is an array index the groups are listed in the order in
    which their keys first occur. *)
Lemma keys_groupBy_firstOccurrences l :
  (forall v, In v l -> arrayIndex (iteratee v) = None) ->
  JS.keys (Lodash.groupBy K_dec arrayIndex iteratee l) =
  firstOccurrences K_dec (map iteratee l).
Proof.
  intros H.
  exact (keys_fold_firstOccurrences l [] [] H
           (grouped_nil K_dec iteratee arrayIndex) eq_refl).
Qed.

End KeyOrder.

Lemma decimal_nondigit (s1 : string) (c : ascii) (s2 : string) :
  Key.is_digit c = false ->
  forall acc, Key.decimal (s1 ++ String c s2) acc = None.
Proof.
  intros Hc. induction s1 as [|c1 s1 IH]; intros acc; simpl.
  - now rewrite Hc.
  - destruct (Key.is_digit c1); [apply IH | reflexivity].
Qed.

Lemma arrayIndex_nondigit (s1 : string) (c : ascii) (s2 : string) :
  Key.is_digit c = false ->
  Key.arrayIndex_of_string (s1 ++ String c s2) = None.
Proof.
  intros Hc. unfold Key.arrayIndex_of_string.
  rewrite (decimal_nondigit s1 c s2 Hc).
  destruct (s1 ++ String c s2)%string as [|c' s']; [reflexivity|].
  now destruct (Ascii.eqb c' "0" && negb (String.eqb s' ""))%bool.
Qed.

(** A bucket key always holds a sign or a hyphen: it is never an array
    index. *)
Lemma arrayIndex_hourBucket (t : Transaction) :
  Key.arrayIndex_of_string (hourBucket t) = None.
Proof.
  rewrite hourBucket_bucketText.
  destruct (Date.civil (Date.Day (date t))) as [[y m] d].
  unfold bucketText, Date.isoYear.
  destruct ((0 <=? y) && (y <=? 9999))%bool.
  - change (Key.arrayIndex_of_string
              (Date.pad4 y ++ String "-" (Date.pad2 m ++ "-" ++ Date.pad2 d
                 ++ "T" ++ Date.pad2 (Date.HourFromTime (date t)))) = None).
    now apply arrayIndex_nondigit.
  - destruct (y <? 0).
    + change (Key.arrayIndex_of_string
                ("" ++ String "-" (Date.pad6 (- y) ++ "-" ++ Date.pad2 m
                   ++ "-" ++ Date.pad2 d)) = None).
      now apply arrayIndex_nondigit.
    + change (Key.arrayIndex_of_string
                ("" ++ String "+" (Date.pad6 y ++ "-" ++ Date.pad2 m
                   ++ "-" ++ Date.pad2 d)) = None).
      now apply arrayIndex_nondigit.
Qed.

Section VelocityOrder.

Variable LocalTZA : Z -> Z.

(** X7: [highVelocity] lists the flagged buckets in the order in which
    their first transactions occur in the input: it is the list of the
    bucket keys of the input, each at its first occurrence, restricted to
    the keys of more than 5 transactions, with each key replaced by all the
    transactions of its bucket. *)
Theorem X7_highVelocity_in_input_order (txs : list Transaction) :
  highVelocity (fraudIndicators (results LocalTZA txs)) =
  map (fun k => hourBucketMembers k txs)
      (List.filter (fun k => 5 <? Z.of_nat (length (hourBucketMembers k txs)))
                   (firstOccurrences string_dec (map hourBucket txs))).
Proof.
  rewrite highVelocity_results. unfold Lodash.filter, groupByHour.
  rewrite groupBy_values, filter_map_swap.
  rewrite keys_groupBy_firstOccurrences
    by (intros v _; apply arrayIndex_hourBucket).
  reflexivity.
Qed.

End VelocityOrder.

Lemma StronglySorted_filter {A : Type} (R : A -> A -> Prop) (p : A -> bool)
  (l : list A) :
  StronglySorted R l -> StronglySorted R (List.filter p l).
Proof.
  induction 1 as [|x l Hs IH Hx]; simpl; [constructor|].
  destruct (p x); [|exact IH].
  constructor; [exact IH|].
  apply Forall_forall. intros y Hy. apply filter_In in Hy.
  rewrite Forall_forall in Hx. now apply Hx.
Qed.

Lemma StronglySorted_map {A B : Type} (R : A -> A -> Prop)
  (R' : B -> B -> Prop) (f : A -> B) (l : list A) :
  (forall x y, In x l -> In y l -> R x y -> R' (f x) (f y)) ->
  StronglySorted R l -> StronglySorted R' (map f l).
Proof.
  intros Hf Hs. induction Hs as [|x l Hs IH Hx]; simpl; [constructor|].
  constructor.
  - apply IH. intros a b Ha Hb. apply Hf; now right.
  - apply Forall_forall. intros y Hy. apply in_map_iff in Hy.
    destruct Hy as [b [<- Hb]]. rewrite Forall_forall in Hx.
    apply Hf; [now left | now right | now apply Hx].
Qed.

Section IndexOrder.
Context {A K : Type}.
Variable K_dec : forall x y : K, {x = y} + {x <> y}.
Variable arrayIndex : K -> option N.
Variable iteratee : A -> K.

Hypothesis arrayIndex_inj :
  forall k k' i, arrayIndex k = Some i -> arrayIndex k' = Some i -> k = k'.

Local Abbreviation index_lt := (index_lt arrayIndex).

Lemma define_index_sorted (o : @JS.object K (list A)) k v i :
  arrayIndex k = Some i ->
  ~ In k (JS.keys o) ->
  (forall k', In k' (JS.keys o) -> arrayIndex k' <> None) ->
  StronglySorted index_lt (JS.keys o) ->
  StronglySorted index_lt (JS.keys (JS.define arrayIndex o k v)).
Proof.
  intros Hk. induction o as [|[k' v'] o IH]; simpl; intros Hnin Hall Hs.
  - repeat constructor.
  - rewrite Hk.
    destruct (arrayIndex k') as [i'|] eqn:Hk';
      [|exfalso; apply (Hall k'); [now left | exact Hk']].
    apply StronglySorted_inv in Hs. destruct Hs as [Hs Hfa].
    rewrite Forall_forall in Hfa.
    destruct (i <? i')%N eqn:Hlt.
    + apply N.ltb_lt in Hlt. simpl. constructor.
      * constructor; [exact Hs | now apply Forall_forall].
      * apply Forall_forall. intros x [<-|Hx].
        -- exists i, i'. now repeat split.
        -- destruct (Hfa x Hx) as (a & b & Ha & Hb & Hab).
           exists i, b. repeat split; [exact Hk | exact Hb |].
           rewrite Hk' in Ha. injection Ha as <-. lia.
    + apply N.ltb_ge in Hlt. simpl.
      assert (Hne : i <> i').
      { intros ->. apply Hnin. left. symmetry.
        now apply (arrayIndex_inj k k' i'). }
      constructor.
      * apply IH.
        -- intros H. apply Hnin. now right.
        -- intros x Hx. apply Hall. now right.
        -- exact Hs.
      * apply Forall_forall. intros x Hx.
        pose proof (Permutation_map fst (define_Permutation arrayIndex o k v))
          as Hp.
        apply (Permutation_in _ Hp) in Hx. destruct Hx as [<-|Hx].
        -- exists i', i. repeat split; [exact Hk' | exact Hk | lia].
        -- now apply Hfa.
Qed.

Lemma keys_fold_index_sorted xs : forall o pre,
  (forall v, In v (pre ++ xs) -> arrayIndex (iteratee v) <> None) ->
  grouped K_dec iteratee o pre ->
  StronglySorted index_lt (JS.keys o) ->
  StronglySorted index_lt
    (JS.keys (fold_left (fun acc value =>
                           Lodash.groupBy_setter K_dec arrayIndex acc value
                                                 (iteratee value))
                        xs o)).
Proof.
  induction xs as [|x xs IH]; simpl; intros o pre Hidx Hg Hs; [exact Hs|].
  apply (IH _ (pre ++ [x])).
  - intros v Hv. apply Hidx. rewrite <- app_assoc in Hv. exact Hv.
  - now apply grouped_setter.
  - unfold Lodash.groupBy_setter.
    destruct (JS.get K_dec o (iteratee x)) as [g|] eqn:Hget.
    + now rewrite keys_update.
    + apply get_None in Hget.
      destruct (arrayIndex (iteratee x)) as [i|] eqn:Hi.
      * apply (define_index_sorted o _ _ i Hi Hget); [|exact Hs].
        intros k' Hk'. apply (grouped_keys K_dec iteratee o pre _ Hg) in Hk'.
        apply in_map_iff in Hk'. destruct Hk' as [v [<- Hv]].
        apply Hidx. apply in_or_app. now left.
      * exfalso. apply (Hidx x); [|exact Hi].
        apply in_or_app. right. now left.
Qed.

(** When every key is an array index the groups are listed by ascending
    index. *)
Lemma keys_groupBy_index_sorted l :
  (forall v, In v l -> arrayIndex (iteratee v) <> None) ->
  StronglySorted index_lt
    (JS.keys (Lodash.groupBy K_dec arrayIndex iteratee l)).
Proof.
  intros H.
  apply (keys_fold_index_sorted l [] []); [exact H | | constructor].
  apply (grouped_nil K_dec iteratee arrayIndex).
Qed.

End IndexOrder.

Lemma arrayIndex_of_number_Some (k : Q) (i : N) :
  Key.arrayIndex_of_number k = Some i -> k = inject_Z (Z.of_N i).
Proof.
  unfold Key.arrayIndex_of_number.
  destruct (Pos.eqb (Qden k) 1 && (0 <=? Qnum k) && (Qnum k <=? 4294967294))%bool
    eqn:E; [|discriminate].
  intros [= <-]. rewrite !andb_true_iff in E. destruct E as [[E1 E2] _].
  apply Pos.eqb_eq in E1. apply Z.leb_le in E2.
  destruct k as [n d]. simpl in *. subst d. unfold inject_Z.
  now rewrite Z2N.id.
Qed.

Lemma arrayIndex_wholeAmount (t : Transaction) :
  wholeAmount (amount t) -> Key.arrayIndex_of_number (amountKey t) <> None.
Proof.
  intros [n [Hn E]]. unfold amountKey, Key.of_number.
  rewrite (Qred_complete _ _ E), Qred_inject_Z.
  unfold Key.arrayIndex_of_number, inject_Z. simpl.
  replace (0 <=? n) with true by (symmetry; apply Z.leb_le; lia).
  replace (n <=? 4294967294) with true by (symmetry; apply Z.leb_le; lia).
  discriminate.
Qed.

Lemma amountsBelow_members (k k' : Q) (l l' : list Transaction) :
  index_lt Key.arrayIndex_of_number k k' ->
  amountsBelow (amountMembers k l) (amountMembers k' l').
Proof.
  intros (i & j & Hi & Hj & Hij) t t' Ht Ht'.
  unfold amountMembers in Ht, Ht'. apply In_bucket in Ht, Ht'.
  destruct Ht as [_ Ht], Ht' as [_ Ht'].
  apply arrayIndex_of_number_Some in Hi, Hj. subst k k'.
  unfold amountKey, Key.of_number in Ht, Ht'.
  rewrite <- (Qred_correct (amount t)), <- (Qred_correct (amount t')).
  rewrite Ht, Ht'. unfold Qlt, inject_Z. simpl. lia.
Qed.

Lemma whole_groups_ascending (p : list Transaction -> bool)
  (l : list Transaction) :
  (forall t, In t l -> wholeAmount (amount t)) ->
  StronglySorted amountsBelow (Lodash.filter p (groupByAmount l)).
Proof.
  intros H. unfold Lodash.filter, groupByAmount.
  rewrite groupBy_values, filter_map_swap.
  apply StronglySorted_map with (R := index_lt Key.arrayIndex_of_number).
  - intros k k' _ _. apply amountsBelow_members.
  - apply StronglySorted_filter. apply keys_groupBy_index_sorted.
    + intros k k' i Hk Hk'.
      apply arrayIndex_of_number_Some in Hk, Hk'. congruence.
    + intros t Ht. apply arrayIndex_wholeAmount. now apply H.
Qed.

Section AmountOrder.

Variable LocalTZA : Z -> Z.

(** X8: when every amount of the input is a whole number between 0 and
    2^32 - 2, the groups of [regularIncome] and of [recurringExpenses] are
    listed by ascending amount, whatever the order of the input. *)
Theorem X8_whole_amounts_ascending (txs : list Transaction) :
  (forall t, In t txs -> wholeAmount (amount t)) ->
  StronglySorted amountsBelow (regularIncome (patterns (results LocalTZA txs))) /\
  StronglySorted amountsBelow (recurringExpenses (patterns (results LocalTZA txs))).
Proof.
  intros H. rewrite regularIncome_results, recurringExpenses_results.
  split; apply whole_groups_ascending; intros t Ht; apply H.
  - unfold credits in Ht. now apply filter_In in Ht.
  - unfold debits in Ht. now apply filter_In in Ht.
Qed.

End AmountOrder.

(** X8, on a payroll that starts with the greater amount: the 50000 group
    comes first. *)
Lemma X8_whole_amounts_ascending_witness :
  (forall t, In t payroll -> wholeAmount (amount t)) /\
  StronglySorted amountsBelow (regularIncome (patterns (results utc payroll))) /\
  map (map amount) (regularIncome (patterns (results utc payroll))) =
    [[50000 # 1; 50000 # 1; 50000 # 1]; [75000 # 1; 75000 # 1; 75000 # 1]].
Proof.
  assert (H : forall t, In t payroll -> wholeAmount (amount t)).
  { intros t Ht. unfold payroll in Ht. simpl in Ht.
    repeat (destruct Ht as [<-|Ht];
            [first [ exists 75000; split; [lia | reflexivity]
                   | exists 50000; split; [lia | reflexivity] ] |]).
    destruct Ht. }
  split; [exact H|].
  split; [exact (proj1 (X8_whole_amounts_ascending utc payroll H)) | reflexivity].
Defined.
(** * Properties of the upload pipeline *)

(** ** Strings *)

Lemma trimStart_decomp (s : string) :
  exists l, s = (l ++ Str.trimStart s)%string /\ Str.allWhiteSpace l = true.
Proof.
  induction s as [|c s [l [E Hl]]]; simpl.
  - exists EmptyString. now split.
  - destruct (Str.isWhiteSpace c) eqn:Hc.
    + exists (String c l). simpl. rewrite Hc, Hl. split; [now rewrite <- E | reflexivity].
    + exists EmptyString. now split.
Qed.

Lemma trimEnd_decomp (s : string) :
  exists r, s = (Str.trimEnd s ++ r)%string /\ Str.allWhiteSpace r = true.
Proof.
  induction s as [|c s [r [E Hr]]]; simpl.
  - exists EmptyString. now split.
  - destruct (Str.trimEnd s) as [|c2 u] eqn:Ht.
    + simpl in E. subst s. destruct (Str.isWhiteSpace c) eqn:Hc.
      * exists (String c r). simpl. now rewrite Hc, Hr.
      * exists r. now split.
    + exists r. split; [|exact Hr]. cbn [append]. f_equal. exact E.
Qed.

Lemma trimStart_clean (s : string) : Str.startsClean (Str.trimStart s) = true.
Proof.
  induction s as [|c s IH]; simpl; [reflexivity|].
  destruct (Str.isWhiteSpace c) eqn:Hc; [exact IH|]. simpl. now rewrite Hc.
Qed.

Lemma trimEnd_clean (s : string) : Str.endsClean (Str.trimEnd s) = true.
Proof.
  induction s as [|c s IH]; simpl; [reflexivity|].
  destruct (Str.trimEnd s) as [|c2 u] eqn:Ht.
  - destruct (Str.isWhiteSpace c) eqn:Hc; simpl; [reflexivity | now rewrite Hc].
  - exact IH.
Qed.

Lemma trimEnd_startsClean (s : string) :
  Str.startsClean s = true -> Str.startsClean (Str.trimEnd s) = true.
Proof.
  destruct s as [|c s]; simpl; [reflexivity|]. intros Hc.
  destruct (Str.trimEnd s); [|exact Hc].
  apply negb_true_iff in Hc. rewrite Hc. simpl. now rewrite Hc.
Qed.

Lemma trim_decomp (s : string) :
  exists l r,
    s = (l ++ Str.trim s ++ r)%string /\
    Str.allWhiteSpace l = true /\ Str.allWhiteSpace r = true /\
    Str.startsClean (Str.trim s) = true /\ Str.endsClean (Str.trim s) = true.
Proof.
  destruct (trimStart_decomp s) as [l [El Hl]].
  destruct (trimEnd_decomp (Str.trimStart s)) as [r [Er Hr]].
  exists l, r. unfold Str.trim. split; [|split; [exact Hl|split; [exact Hr|split]]].
  - now rewrite <- Er.
  - apply trimEnd_startsClean, trimStart_clean.
  - apply trimEnd_clean.
Qed.

Lemma length_append (s1 s2 : string) :
  String.length (s1 ++ s2) = (String.length s1 + String.length s2)%nat.
Proof. induction s1 as [|c s1 IH]; simpl; [reflexivity | now rewrite IH]. Qed.

Lemma substring_all (s : string) : substring 0 (String.length s) s = s.
Proof. induction s as [|c s IH]; simpl; [reflexivity | now rewrite IH]. Qed.

Lemma substring_append (p s : string) (m : nat) :
  substring (String.length p) m (p ++ s) = substring 0 m s.
Proof. induction p as [|c p IH]; simpl; [reflexivity | exact IH]. Qed.

Lemma substring_split (s : string) : forall k,
  (k <= String.length s)%nat ->
  s = (substring 0 k s ++ substring k (String.length s - k) s)%string.
Proof.
  induction s as [|c s IH]; intros k Hk.
  - simpl in Hk. assert (k = O) by lia. subst k. reflexivity.
  - destruct k as [|k].
    + cbn [substring append]. rewrite Nat.sub_0_r.
      change (String c s = substring 0 (String.length (String c s)) (String c s)).
      now rewrite substring_all.
    + simpl in Hk. cbn [substring append String.length Nat.sub].
      f_equal. apply IH. lia.
Qed.

Lemma endsWith_iff (s suffix : string) :
  Str.endsWith s suffix = true <-> exists p, s = (p ++ suffix)%string.
Proof.
  unfold Str.endsWith. split.
  - destruct (String.length suffix <=? String.length s)%nat eqn:Hle;
      [|discriminate].
    apply Nat.leb_le in Hle. intros H. apply String.eqb_eq in H.
    exists (substring 0 (String.length s - String.length suffix) s).
    pose proof (substring_split s (String.length s - String.length suffix))
      as Hs.
    replace (String.length s - (String.length s - String.length suffix))%nat
      with (String.length suffix) in Hs by lia.
    rewrite H in Hs. apply Hs. lia.
  - intros [p ->]. rewrite length_append.
    replace (String.length suffix <=? String.length p + String.length suffix)%nat
      with true by (symmetry; apply Nat.leb_le; lia).
    replace (String.length p + String.length suffix - String.length suffix)%nat
      with (String.length p) by lia.
    rewrite substring_append, substring_all. apply String.eqb_refl.
Qed.

(** ** Rows *)

Lemma mapThrowing_Normal {A B : Type} (f : A -> completion B) (xs : list A)
  (ys : list B) :
  mapThrowing f xs = Normal ys <-> Forall2 (fun x y => f x = Normal y) xs ys.
Proof.
  revert ys. induction xs as [|x xs IH]; intros ys; simpl.
  - split.
    + intros [= <-]. constructor.
    + intros H. inversion H. reflexivity.
  - destruct (f x) as [y|e] eqn:Hx.
    + destruct (mapThrowing f xs) as [ys'|e] eqn:Hm.
      * split.
        -- intros [= <-]. constructor; [exact Hx | now apply IH].
        -- intros H. inversion H as [|? y0 ? ys0 E1 E2]; subst.
           rewrite Hx in E1. injection E1 as <-.
           apply IH in E2. now injection E2 as <-.
      * split; [discriminate|].
        intros H. inversion H as [|? y0 ? ys0 E1 E2]; subst.
        apply IH in E2. discriminate E2.
    + split; [discriminate|].
      intros H. inversion H as [|? y0 ? ys0 E1 E2]; subst.
      rewrite Hx in E1. discriminate E1.
Qed.

Lemma mapThrowing_Throw {A B : Type} (f : A -> completion B) (xs : list A)
  (e : exception) :
  mapThrowing f xs = Throw e -> exists x, In x xs /\ f x = Throw e.
Proof.
  induction xs as [|x xs IH]; simpl; [discriminate|].
  destruct (f x) as [y|e'] eqn:Hx.
  - destruct (mapThrowing f xs) as [ys|e'']; [discriminate|].
    intros [= ->]. destruct (IH eq_refl) as [x' [Hin Hx']].
    exists x'. split; [now right | exact Hx'].
  - intros [= ->]. exists x. split; [now left | exact Hx].
Qed.


Lemma Forall2_In_l {A B : Type} (R : A -> B -> Prop) (xs : list A)
  (ys : list B) :
  Forall2 R xs ys -> forall x, In x xs -> exists y, In y ys /\ R x y.
Proof.
  induction 1 as [|x0 y0 xs ys H0 H IH]; intros x Hx; [destruct Hx|].
  destruct Hx as [<-|Hx].
  - exists y0. split; [now left | exact H0].
  - destruct (IH x Hx) as [y [Hy Hr]]. exists y. split; [now right | exact Hr].
Qed.

Lemma Forall2_In_r {A B : Type} (R : A -> B -> Prop) (xs : list A)
  (ys : list B) :
  Forall2 R xs ys -> forall y, In y ys -> exists x, In x xs /\ R x y.
Proof.
  induction 1 as [|x0 y0 xs ys H0 H IH]; intros y Hy; [destruct Hy|].
  destruct Hy as [<-|Hy].
  - exists x0. split; [now left | exact H0].
  - destruct (IH y Hy) as [x [Hx Hr]]. exists x. split; [now right | exact Hr].
Qed.

Section Rows.

Variable Date_parse : string -> option Z.

Lemma rowToTransaction_fields (row : Sheet.row) (t : Raw.t) :
  rowToTransaction Date_parse row = Normal t ->
  Raw.date t = newDate Date_parse (Sheet.get row 1) /\
  Raw.amount t = Sheet.get row 4 /\
  typeText (Sheet.get row 9) = Normal (Raw.type t) /\
  Raw.channel t = Sheet.get row 5 /\
  Raw.balance t = Sheet.get row 6.
Proof.
  unfold rowToTransaction.
  destruct (typeText (Sheet.get row 9)) as [ty|e]; [|discriminate].
  intros [= <-]. now repeat split.
Qed.

Lemma rowToTransaction_Throw (row : Sheet.row) (e : exception) :
  rowToTransaction Date_parse row = Throw e <->
  e = TypeError_trim /\
  Sheet.ToBoolean (Sheet.get row 9) = true /\
  forall s, Sheet.get row 9 <> Sheet.Text s.
Proof.
  unfold rowToTransaction, typeText.
  destruct (Sheet.get row 9) as [|[q| | |]|s|[|]|d]; simpl;
    try (destruct (negb _)); simpl;
    (split;
     [ try discriminate; intros [= <-]; repeat split; discriminate
     | intros (-> & Hb & Hs); try discriminate Hb; try reflexivity;
       try (exfalso; now apply (Hs s)) ]).
Qed.

Lemma In_parseTransactions (rows : list Sheet.row) (txs : list Raw.t) :
  parseTransactions Date_parse rows = Normal txs ->
  forall t,
    In t txs <->
    exists row, In row (tl rows) /\
                rowToTransaction Date_parse row = Normal t /\
                Sheet.ToBoolean (Sheet.get row 4) = true.
Proof.
  unfold parseTransactions.
  destruct (mapThrowing (rowToTransaction Date_parse) (tl rows)) as [ts|e] eqn:Hm;
    [|discriminate].
  intros [= <-] t. apply mapThrowing_Normal in Hm.
  rewrite filter_In. unfold isKept. cbn [andb]. split.
  - intros [Hin Hk]. destruct (Forall2_In_r _ _ _ Hm t Hin) as [row [Hrow Hr]].
    exists row. split; [exact Hrow|]. split; [exact Hr|].
    apply rowToTransaction_fields in Hr. destruct Hr as (_ & <- & _). exact Hk.
  - intros [row (Hrow & Hr & Hk)].
    destruct (Forall2_In_l _ _ _ Hm row Hrow) as [t' [Ht' Hr']].
    rewrite Hr in Hr'. injection Hr' as <-. split; [exact Ht'|].
    apply rowToTransaction_fields in Hr. destruct Hr as (_ & -> & _). exact Hk.
Qed.

(** X9: when the sheet parses, the transactions handed to the analyzer are
    those of the data rows (all rows but the first) whose amount cell is
    truthy: every one of them has a truthy amount, and a data row with a
    truthy amount is kept whatever its date cell, also when that gives an
    invalid date. *)
Theorem X9_rows_kept_by_amount (rows : list Sheet.row) (txs : list Raw.t) :
  parseTransactions Date_parse rows = Normal txs ->
  (forall t,
     In t txs <->
     exists row, In row (tl rows) /\
                 rowToTransaction Date_parse row = Normal t /\
                 Sheet.ToBoolean (Sheet.get row 4) = true) /\
  (forall t, In t txs -> Sheet.ToBoolean (Raw.amount t) = true) /\
  (forall row,
     In row (tl rows) -> Sheet.ToBoolean (Sheet.get row 4) = true ->
     exists t, In t txs /\
               Raw.date t = newDate Date_parse (Sheet.get row 1) /\
               Raw.amount t = Sheet.get row 4).
Proof.
  intros H. pose proof (In_parseTransactions rows txs H) as Hin.
  split; [exact Hin|]. split.
  - intros t Ht. apply Hin in Ht. destruct Ht as [row (_ & Hr & Hk)].
    apply rowToTransaction_fields in Hr. destruct Hr as (_ & -> & _). exact Hk.
  - intros row Hrow Hk. unfold parseTransactions in H.
    destruct (mapThrowing (rowToTransaction Date_parse) (tl rows)) as [ts|e] eqn:Hm;
      [|discriminate].
    apply mapThrowing_Normal in Hm.
    destruct (Forall2_In_l _ _ _ Hm row Hrow) as [t [_ Hr]].
    exists t. split; [apply Hin; now exists row|].
    apply rowToTransaction_fields in Hr. tauto.
Qed.

(** X10: parsing the sheet throws exactly when some data row has a type
    cell that is truthy and no string (a number other than 0, [true], a
    date), whatever the other cells of that row, its amount included; the
    exception is then the TypeError of [.trim], and there is no other. *)
Theorem X10_type_cell_must_be_text (rows : list Sheet.row) :
  ((exists e, parseTransactions Date_parse rows = Throw e) <->
   exists row, In row (tl rows) /\
               Sheet.ToBoolean (Sheet.get row 9) = true /\
               forall s, Sheet.get row 9 <> Sheet.Text s) /\
  (forall e, parseTransactions Date_parse rows = Throw e -> e = TypeError_trim).
Proof.
  unfold parseTransactions.
  destruct (mapThrowing (rowToTransaction Date_parse) (tl rows)) as [ts|e] eqn:Hm.
  - split.
    + split; [intros [e H]; discriminate H|].
      intros [row (Hrow & Hb & Hs)]. apply mapThrowing_Normal in Hm.
      destruct (Forall2_In_l _ _ _ Hm row Hrow) as [t [_ Hr]].
      assert (Ht : rowToTransaction Date_parse row = Throw TypeError_trim)
        by (apply rowToTransaction_Throw; now repeat split).
      rewrite Hr in Ht. discriminate Ht.
    + intros e H. discriminate H.
  - apply mapThrowing_Throw in Hm. destruct Hm as [row [Hrow Hr]].
    apply rowToTransaction_Throw in Hr. destruct Hr as (-> & Hb & Hs).
    split.
    + split; [intros _; now exists row | intros _; now exists TypeError_trim].
    + now intros e [= <-].
Qed.

(** X11: the type of a transaction read from a row whose type cell is a
    string is that string without the white space around it: the string is
    some white space, the type, some white space, and the type neither
    starts nor ends with white space. *)
Theorem X11_type_is_trimmed (row : Sheet.row) (s : string) :
  Sheet.get row 9 = Sheet.Text s ->
  exists t l r,
    rowToTransaction Date_parse row = Normal t /\
    s = (l ++ Raw.type t ++ r)%string /\
    Str.allWhiteSpace l = true /\ Str.allWhiteSpace r = true /\
    Str.startsClean (Raw.type t) = true /\ Str.endsClean (Raw.type t) = true.
Proof.
  intros Hs. unfold rowToTransaction, typeText. rewrite Hs. simpl.
  destruct (trim_decomp s) as (l & r & E & Hl & Hr & Hsc & Hec).
  destruct (String.eqb s "") eqn:Hempty; simpl.
  - apply String.eqb_eq in Hempty. subst s.
    eexists. exists EmptyString, EmptyString. now repeat split.
  - eexists. exists l, r. now repeat split.
Qed.

End Rows.

(** X12: the balance trend holds the day and balance cells of the data
    rows of the balance sheet whose balance cell is truthy, in their order;
    a row with a blank or zero balance is left out, so the default 0 never
    reaches the chart. *)
Theorem X12_trend_rows (rows : list Sheet.row) :
  parseBalances rows =
  map (fun row => {| Trend.day := Sheet.get row 0;
                     Trend.balance := Sheet.get row 3 |})
      (List.filter (fun row => Sheet.ToBoolean (Sheet.get row 3)) (tl rows)).
Proof.
  unfold parseBalances. induction (tl rows) as [|row rs IH];
    [reflexivity|].
  cbn [map List.filter Trend.balance]. rewrite IH. unfold Sheet.orZero.
  destruct (Sheet.ToBoolean (Sheet.get row 3)) eqn:Hb.
  - rewrite Hb. reflexivity.
  - reflexivity.
Qed.
(** ** [processFile] *)

Section ProcessFile.

Variable Date_parse : string -> option Z.
Variable TypeError_message RangeError_message : string.
Variable LocalTZA : Z -> Z.
Variable analyzeOther : list Raw.t -> AnalysisResult.

Local Abbreviation processFile :=
  (processFile Date_parse TypeError_message RangeError_message LocalTZA
               analyzeOther).
Local Abbreviation handleDrop :=
  (handleDrop Date_parse TypeError_message RangeError_message LocalTZA
              analyzeOther).
Local Abbreviation handleFileInput :=
  (handleFileInput Date_parse TypeError_message RangeError_message LocalTZA
                   analyzeOther).
Local Abbreviation message := (message TypeError_message RangeError_message).






(** X17: [handleDrop] and [handleFileInput] hand a file to [processFile]
    exactly when its name ends with [.xlsx], in these very letters; for any
    other name, and when there is no file, they only set the error to the
    upload hint: the result shown, the trend and [loading] stay as they
    were. *)
Theorem X17_only_xlsx_names (file : File) (s : State) :
  ((exists p, name file = (p ++ ".xlsx")%string) ->
   handleDrop (Some file) s = processFile file s /\
   handleFileInput (Some file) s = processFile file s) /\
  (~ (exists p, name file = (p ++ ".xlsx")%string) ->
   handleDrop (Some file) s =
     {| shownResults := shownResults s; loading := loading s;
        error := Some uploadHint; balanceTrend := balanceTrend s |} /\
   handleFileInput (Some file) s =
     {| shownResults := shownResults s; loading := loading s;
        error := Some uploadHint; balanceTrend := balanceTrend s |}) /\
  handleDrop None s =
    {| shownResults := shownResults s; loading := loading s;
       error := Some uploadHint; balanceTrend := balanceTrend s |} /\
  handleFileInput None s =
    {| shownResults := shownResults s; loading := loading s;
       error := Some uploadHint; balanceTrend := balanceTrend s |}.
Proof.
  unfold handleDrop, handleFileInput.
  split; [|split; [|split; reflexivity]].
  - intros H. apply endsWith_iff in H. rewrite H. now split.
  - intros H. destruct (Str.endsWith (name file) ".xlsx") eqn:E.
    + apply endsWith_iff in E. contradiction.
    + now split.
Qed.

End ProcessFile.

(** ** What the page shows *)

Section Page.

Variable LocalTZA : Z -> Z.

(** X18: the high-velocity alert is shown exactly when more than 5
    transactions of the input share one bucket key; when the UTC year of
    every date has four digits, that is exactly when some UTC clock hour
    holds more than 5 transactions of the input. *)
Theorem X18_alert_shown (txs : list Transaction) :
  (velocityAlert (results LocalTZA txs) = true <->
   exists k, (5 < length (hourBucketMembers k txs))%nat) /\
  ((forall t, In t txs -> fourDigitYear (date t)) ->
   (velocityAlert (results LocalTZA txs) = true <->
    exists h, (5 < length (clockHour h txs))%nat)).
Proof.
  assert (Halert : velocityAlert (results LocalTZA txs) = true <->
                   exists g, In g (highVelocity
                                     (fraudIndicators (results LocalTZA txs)))).
  { unfold velocityAlert. rewrite Z.ltb_lt.
    destruct (highVelocity (fraudIndicators (results LocalTZA txs)))
      as [|g gs]; cbn [length].
    - split; [lia | intros [g []]].
    - split; [intros _; exists g; now left | lia]. }
  split.
  - rewrite Halert. split.
    + intros [g Hg]. apply In_highVelocity in Hg.
      destruct Hg as [k [-> H]]. now exists k.
    + intros [k Hk]. exists (hourBucketMembers k txs).
      apply In_highVelocity. now exists k.
  - intros Hall. rewrite Halert. split.
    + intros [g Hg]. apply (In_highVelocity_clockHour _ _ _ Hall) in Hg.
      destruct Hg as [h [-> H]]. now exists h.
    + intros [h Hh]. exists (clockHour h txs).
      apply (In_highVelocity_clockHour _ _ _ Hall). now exists h.
Qed.

(** X19: the number of regular income sources shown is the number of
    distinct amounts that at least 3 Credits of the input have, and the
    number of recurring payments shown is the number of distinct amounts
    that at least 2 Debits have. *)
Theorem X19_counts_shown (txs : list Transaction) :
  (exists ks,
     NoDup ks /\
     (forall k, In k ks <-> (3 <= length (amountMembers k (credits txs)))%nat) /\
     incomeSources (results LocalTZA txs) = length ks) /\
  (exists ks,
     NoDup ks /\
     (forall k, In k ks <-> (2 <= length (amountMembers k (debits txs)))%nat) /\
     recurringPayments (results LocalTZA txs) = length ks).
Proof.
  unfold incomeSources, recurringPayments, JS.Object_keys.
  rewrite !length_map, !length_seq.
  rewrite regularIncome_results, recurringExpenses_results.
  unfold groupByAmount. split.
  - destruct (filter_groupBy_keys Key.Q_dec Key.arrayIndex_of_number amountKey
                (fun group => 3 <=? Z.of_nat (length group)) (credits txs))
      as [ks [Hnd [Heq Hks]]].
    exists ks. split; [exact Hnd|]. split.
    + intros k. rewrite Hks. unfold amountMembers. rewrite Z.leb_le.
      destruct (bucket Key.Q_dec amountKey k (credits txs)); cbn [length].
      * split; [intros [H _]; now elim H | lia].
      * split; [lia | intros H; split; [discriminate | lia]].
    + rewrite Heq. apply length_map.
  - destruct (filter_groupBy_keys Key.Q_dec Key.arrayIndex_of_number amountKey
                (fun group => 2 <=? Z.of_nat (length group)) (debits txs))
      as [ks [Hnd [Heq Hks]]].
    exists ks. split; [exact Hnd|]. split.
    + intros k. rewrite Hks. unfold amountMembers. rewrite Z.leb_le.
      destruct (bucket Key.Q_dec amountKey k (debits txs)); cbn [length].
      * split; [intros [H _]; now elim H | lia].
      * split; [lia | intros H; split; [discriminate | lia]].
    + rewrite Heq. apply length_map.
Qed.

End Page.

(** X18, on six transactions in one clock hour and a seventh an hour
    later: the alert is shown. *)
Lemma X18_alert_shown_witness :
  (forall t, In t sixInOneHour -> fourDigitYear (date t)) /\
  (exists h, (5 < length (clockHour h sixInOneHour))%nat) /\
  velocityAlert (results utc sixInOneHour) = true.
Proof.
  assert (Hh : exists h, (5 < length (clockHour h sixInOneHour))%nat)
    by (exists 473698; vm_compute; lia).
  split; [exact sixInOneHour_fourDigitYear|]. split; [exact Hh|].
  exact (proj2 (proj2 (X18_alert_shown utc sixInOneHour)
                  sixInOneHour_fourDigitYear) Hh).
Defined.
(** ** The properties on the sample sheets *)

(** X9, on a sheet with a padded credit and an undated debit: both are
    kept. *)
Lemma X9_rows_kept_by_amount_witness :
  parseTransactions noParse [headerRow; paddedCredit; undated] =
    Normal [ {| Raw.date := Some 1704929400000;
                Raw.amount := Sheet.Number (JS.Finite (100 # 1));
                Raw.type := "Credit";
                Raw.channel := Sheet.Text "UPI";
                Raw.balance := Sheet.Number (JS.Finite (5 # 1)) |};
             {| Raw.date := None;
                Raw.amount := Sheet.Number (JS.Finite (40 # 1));
                Raw.type := "Debit";
                Raw.channel := Sheet.Text "Card";
                Raw.balance := Sheet.Number (JS.Finite (7 # 1)) |} ] /\
  exists t, Raw.date t = None /\ Raw.amount t = Sheet.Number (JS.Finite (40 # 1)).
Proof.
  assert (H : parseTransactions noParse [headerRow; paddedCredit; undated] =
    Normal [ {| Raw.date := Some 1704929400000;
                Raw.amount := Sheet.Number (JS.Finite (100 # 1));
                Raw.type := "Credit";
                Raw.channel := Sheet.Text "UPI";
                Raw.balance := Sheet.Number (JS.Finite (5 # 1)) |};
             {| Raw.date := None;
                Raw.amount := Sheet.Number (JS.Finite (40 # 1));
                Raw.type := "Debit";
                Raw.channel := Sheet.Text "Card";
                Raw.balance := Sheet.Number (JS.Finite (7 # 1)) |} ])
    by reflexivity.
  split; [exact H|].
  destruct (X9_rows_kept_by_amount noParse _ _ H) as (_ & _ & Hkept).
  destruct (Hkept undated) as [t (_ & Hd & Ha)];
    [right; now left | reflexivity |].
  exists t. split; [exact Hd | exact Ha].
Defined.

(** X11, on the padded credit. *)
Lemma X11_type_is_trimmed_witness :
  Sheet.get paddedCredit 9 = Sheet.Text "  Credit " /\
  exists t l r,
    rowToTransaction noParse paddedCredit = Normal t /\
    "  Credit "%string = (l ++ Raw.type t ++ r)%string /\
    Str.allWhiteSpace l = true /\ Str.allWhiteSpace r = true /\
    Str.startsClean (Raw.type t) = true /\ Str.endsClean (Raw.type t) = true.
Proof.
  assert (H : Sheet.get paddedCredit 9 = Sheet.Text "  Credit ") by reflexivity.
  split; [exact H | exact (X11_type_is_trimmed noParse paddedCredit _ H)].
Defined.

(** A row with a date and an amount and no balance: the analyses complete
    on it, and a result is shown. *)
Example blank_balance_upload :
  forall analyzeOther,
    let s' := processFile noParse "TypeError" "Invalid time value" utc
                analyzeOther blankBalanceFile idle in
    error s' = None /\ loading s' = false /\ exists r, shownResults s' = Some r.
Proof.
  intros analyzeOther. cbv zeta. split; [reflexivity|].
  split; [reflexivity | now eexists].
Qed.



(** The file with the undated row and a balance sheet: the analysis fails
    and the trend is that of the new file all the same. *)
Example undatedWithBalances_upload :
  processFile noParse "TypeError" "Invalid time value" utc noOther
    undatedWithBalances idle = afterUndatedWithBalances.
Proof. reflexivity. Qed.

(** ** Velocity by clock hour *)

Section ClockHour.

Variable LocalTZA : Z -> Z.

(** X20: when the UTC years of all dates have four digits, a transaction
    is in some group of [highVelocity] exactly when it is in the input and
    more than 5 transactions of the input were made in its UTC clock
    hour. *)
Theorem X20_velocity_by_clock_hour (txs : list Transaction) (t : Transaction) :
  (forall t', In t' txs -> fourDigitYear (date t')) ->
  (In t (concat (highVelocity (fraudIndicators (results LocalTZA txs)))) <->
   In t txs /\ (5 < length (sameClockHour t txs))%nat).
Proof.
  intros Hall. rewrite in_concat. split.
  - intros [g [Hg Ht]]. apply In_highVelocity in Hg.
    destruct Hg as [k [-> Hlen]]. unfold hourBucketMembers in Ht.
    pose proof Ht as Ht'. apply In_bucket in Ht'. destruct Ht' as [Hin <-].
    split; [exact Hin|].
    rewrite <- hourBucketMembers_sameClockHour; [exact Hlen | | exact Hall].
    now apply Hall.
  - intros [Hin Hlen]. exists (hourBucketMembers (hourBucket t) txs). split.
    + apply In_highVelocity. exists (hourBucket t). split; [reflexivity|].
      rewrite hourBucketMembers_sameClockHour; [exact Hlen | | exact Hall].
      now apply Hall.
    + apply In_bucket. now split.
Qed.

End ClockHour.

(** X20, on six transactions in one hour and a seventh an hour later. *)
Lemma X20_velocity_by_clock_hour_witness :
  (forall t', In t' sixInOneHour -> fourDigitYear (date t')) /\
  (forall t,
     In t (concat (highVelocity (fraudIndicators (results utc sixInOneHour)))) <->
     In t sixInOneHour /\ (5 < length (sameClockHour t sixInOneHour))%nat).
Proof.
  assert (H : forall t', In t' sixInOneHour -> fourDigitYear (date t')).
  { intros t' Ht'. unfold sixInOneHour in Ht'. simpl in Ht'.
    repeat (destruct Ht' as [<-|Ht'];
            [unfold fourDigitYear; vm_compute; split; discriminate|]).
    destruct Ht'. }
  split; [exact H|].
  intros t. exact (X20_velocity_by_clock_hour utc sixInOneHour t H).
Defined.

(** ** Date cells that are numbers *)

Lemma TimeClip_small (q : Q) :
  (0 <= q)%Q -> (q < inject_Z Date.msPerHour)%Q ->
  exists t, TimeClip q = Some t /\ 0 <= t < Date.msPerHour /\
            (inject_Z t <= q)%Q /\ (q < inject_Z (t + 1))%Q.
Proof.
  intros H0 H1. unfold TimeClip.
  assert (Hq : Qle_bool (Qabs q) (inject_Z 8640000000000000) = true).
  { apply Qle_bool_iff. rewrite Qabs_pos by exact H0.
    apply Qlt_le_weak. apply Qlt_trans with (inject_Z Date.msPerHour);
      [exact H1 | reflexivity]. }
  rewrite Hq. eexists. split; [reflexivity|].
  destruct q as [n d]. unfold Qle, Qlt, inject_Z, Date.msPerHour in *.
  cbn [Qnum Qden] in *.
  assert (Hn : 0 <= n) by lia.
  rewrite Z.quot_div_nonneg by lia.
  pose proof (Z.mul_div_le n (Z.pos d) ltac:(lia)) as Hle.
  pose proof (Z.mul_succ_div_gt n (Z.pos d) ltac:(lia)) as Hgt.
  split; [|split]; [split| |].
  - apply Z.div_pos; lia.
  - apply Z.div_lt_upper_bound; lia.
  - lia.
  - lia.
Qed.

Section NumericDates.

Variable Date_parse : string -> option Z.

(** X21: a date cell that holds a number [q] from 0 up to, but not
    including, 3,600,000 (a spreadsheet's day number, say) is read as that
    many milliseconds after the epoch, the fraction of a millisecond cut
    off: the date is valid, its time value is the whole part of [q], and
    every transaction with such a date is in the one hour bucket
    [1970-01-01T00]. *)
Theorem X21_numeric_date_cells (q : Q) :
  (0 <= q)%Q -> (q < inject_Z 3600000)%Q ->
  exists d,
    newDate Date_parse (Sheet.Number (JS.Finite q)) = Some d /\
    (inject_Z d <= q)%Q /\ (q < inject_Z (d + 1))%Q /\
    forall t, date t = d -> hourBucket t = "1970-01-01T00"%string.
Proof.
  intros H0 H1. destruct (TimeClip_small q H0 H1) as [d (Hd & Hr & Hlo & Hhi)].
  exists d. split; [exact Hd|]. split; [exact Hlo|]. split; [exact Hhi|].
  intros t Ht.
  change "1970-01-01T00"%string
    with (hourBucket {| date := 0; amount := 0; type := ""; channel := "";
                        balance := 0 |}).
  apply hourBucket_of_hourIndex. rewrite Ht. cbn [date].
  unfold hourIndex, Date.msPerHour in *.
  rewrite (Z.div_small d) by lia. reflexivity.
Qed.

End NumericDates.

(** X21, on the day number 45292.5: 45.292 seconds after the epoch. *)
Lemma X21_numeric_date_cells_witness :
  (0 <= 90585 # 2)%Q /\ (90585 # 2 < inject_Z 3600000)%Q /\
  newDate noParse (Sheet.Number (JS.Finite (90585 # 2))) = Some 45292 /\
  exists d,
    newDate noParse (Sheet.Number (JS.Finite (90585 # 2))) = Some d /\
    (inject_Z d <= 90585 # 2)%Q /\ (90585 # 2 < inject_Z (d + 1))%Q /\
    forall t, date t = d -> hourBucket t = "1970-01-01T00"%string.
Proof.
  assert (H0 : (0 <= 90585 # 2)%Q) by (unfold Qle; simpl; lia).
  assert (H1 : (90585 # 2 < inject_Z 3600000)%Q) by (unfold Qlt; simpl; lia).
  split; [exact H0|]. split; [exact H1|]. split; [reflexivity|].
  exact (X21_numeric_date_cells noParse (90585 # 2) H0 H1).
Defined.
